(** * The jccc lexer ([src/lexer/lex.c]), embedded and verified.

    The development follows the C file function by function.  C [int]s are
    integers of [Z]; a [char] is the signed 8-bit value that [to_char]
    computes (the x86-64 ABI the project is built for); a C string is the
    list of its characters before the terminating NUL; an array is a list
    that is read with [!!] and written with [<[ i := x ]>].

    [lex.h] is not part of the sources at hand: the two constants it
    defines, [TOKEN_LENGTH] and [TOKEN_PUTBACKS], are parameters of the
    development, and the [Token], [Lexer] and [TokenType] declarations are
    rebuilt from the fields and enumerators that [lex.c] uses. *)

From Stdlib Require Import ZArith Lia Bool String Ascii.
From stdpp Require Import base tactics option list.

Local Open Scope Z_scope.

(** ** Characters and C strings *)

Definition char_code (a : ascii) : Z := Z.of_N (N_of_ascii a).

Definition c_str (s : string) : list Z := map char_code (list_ascii_of_string s).

(** Conversion of an [int] to [char]: wrap-around into [-128, 127]. *)
Definition to_char (x : Z) : Z := (x + 128) mod 256 - 128.

Definition EOF : Z := -1.

Definition ch_tab : Z := 9.
Definition ch_nl : Z := 10.
Definition ch_space : Z := Eval cbv in char_code " ".
Definition ch_dquote : Z := 34.
Definition ch_squote : Z := Eval cbv in char_code "'".
Definition ch_star : Z := Eval cbv in char_code "*".
Definition ch_dot : Z := Eval cbv in char_code ".".
Definition ch_slash : Z := Eval cbv in char_code "/".
Definition ch_0 : Z := Eval cbv in char_code "0".
Definition ch_9 : Z := Eval cbv in char_code "9".
Definition ch_underscore : Z := Eval cbv in char_code "_".
Definition ch_f : Z := Eval cbv in char_code "f".
Definition ch_u : Z := Eval cbv in char_code "u".

(** [isalnum] of <ctype.h>, in the C locale. *)
Definition isalnum (c : Z) : bool :=
  ((ch_0 <=? c) && (c <=? ch_9))
  || ((65 <=? c) && (c <=? 90))
  || ((97 <=? c) && (c <=? 122)).

(** The text held by a [char] buffer: everything before the first NUL. *)
Fixpoint cstr (buf : list Z) : list Z :=
  match buf with
  | [] => []
  | c :: buf' => if c =? 0 then [] else c :: cstr buf'
  end.

Definition strlen (s : list Z) : Z := Z.of_nat (length s).

(** [strcpy (dst, src)]: the characters of [src], then a NUL. *)
Fixpoint strcpy_from (i : nat) (dst src : list Z) : list Z :=
  match src with
  | [] => <[ i := 0 ]> dst
  | c :: src' => strcpy_from (S i) (<[ i := c ]> dst) src'
  end.

Definition strcpy (dst src : list Z) : list Z := strcpy_from 0 dst src.

(** ** Types of [lex.h] *)

(** Modelled from the spec: the token kinds (section 3, TokenKind), under
    the enumerator names that [lex.c] uses; [TT_NO_TOKEN] is the sentinel
    that only the classifier returns. *)
Inductive TokenType : Set :=
  | TT_NO_TOKEN
  | TT_EOF
  | TT_NEWLINE
  | TT_OPAREN
  | TT_CPAREN
  | TT_OBRACE
  | TT_CBRACE
  | TT_OBRACKET
  | TT_CBRACKET
  | TT_SEMI
  | TT_LITERAL
  | TT_IDENTIFIER.

(** Modelled from the spec: a token (section 3) is its text, its length and
    its kind; [lex.c] clears [TOKEN_LENGTH] bytes of [contents]. *)
Record Token : Set := mkToken {
  contents : list Z;      (* char contents[TOKEN_LENGTH] *)
  tok_length : Z;         (* length *)
  tok_type : TokenType    (* type *)
}.

(** A read-only [FILE *] with its cursor: the bytes already read, the last
    one first, and the bytes still to come. *)
Record FILE : Set := mkFILE {
  consumed : list Z;
  pending : list Z
}.

(** Modelled from the spec: a lexer (section 3) owns one stream and a
    pushback stack of [TOKEN_PUTBACKS] tokens, of which the first
    [unlexed_count] are in use. *)
Record Lexer : Set := mkLexer {
  fp : FILE;
  unlexed : list Token;   (* Token unlexed[TOKEN_PUTBACKS] *)
  unlexed_count : Z
}.

Definition set_fp (l : Lexer) (f : FILE) : Lexer :=
  mkLexer f (unlexed l) (unlexed_count l).

Definition set_unlexed_count (l : Lexer) (n : Z) : Lexer :=
  mkLexer (fp l) (unlexed l) n.

(** ** <stdio.h> *)

Definition getc (f : FILE) : Z * FILE :=
  match pending f with
  | [] => (EOF, f)
  | b :: rest => (b, mkFILE (b :: consumed f) rest)
  end.

Definition fgetc := getc.

(** [fseek (fp, -1, SEEK_CUR)]; at offset 0 the call fails and the cursor
    stays. *)
Definition fseek_back (f : FILE) : FILE :=
  match consumed f with
  | [] => f
  | b :: before => mkFILE before (b :: pending f)
  end.

(** [ungetc (c, fp)]: [(unsigned char) c] is the next byte read, and the
    cursor moves back by one; [ungetc (EOF, fp)] does nothing. *)
Definition ungetc (c : Z) (f : FILE) : FILE :=
  if c =? EOF then f else mkFILE (tail (consumed f)) (c mod 256 :: pending f).

(** ** The classifier *)

(** [in_string]: the loop stops at the NUL of [s]. *)
Fixpoint in_string (c : Z) (s : list Z) : bool :=
  match s with
  | [] => false
  | d :: s' => if d =? c then true else in_string c s'
  end.

Definition single_char_tokens : list Z := Eval cbv in c_str "(){}[];".

Definition is_valid_numeric_or_id_char (c : Z) : bool :=
  isalnum c || (c =? ch_underscore) || (c =? ch_dot).

Definition ttype_one_char (c : Z) : TokenType :=
  if c =? 40 then TT_OPAREN
  else if c =? 41 then TT_CPAREN
  else if c =? 123 then TT_OBRACE
  else if c =? 125 then TT_CBRACE
  else if c =? 91 then TT_OBRACKET
  else if c =? 93 then TT_CBRACKET
  else if c =? 59 then TT_SEMI
  else TT_NO_TOKEN.

(** The [for] loop of [ttype_many_chars] over the characters of the text:
    [inl k] when the loop returns [k] from inside, [inr] of the three
    locals [all_numeric], [count_fs], [count_us] when it runs to the NUL. *)
Fixpoint ttype_many_loop (s : list Z) (all_numeric : bool) (count_fs count_us : Z)
    : TokenType + (bool * Z * Z) :=
  match s with
  | [] => inr (all_numeric, count_fs, count_us)
  | c :: s' =>
      if c =? ch_dot then inl TT_LITERAL
      else
        let count_fs := if c =? ch_f then count_fs + 1 else count_fs in
        let count_us := if c =? ch_u then count_us + 1 else count_us in
        let all_numeric :=
          if ((c >? ch_9) || (c <? ch_0)) && negb (c =? ch_u)
          then false else all_numeric in
        if (c =? ch_squote) || (c =? ch_dquote) then inl TT_LITERAL
        else ttype_many_loop s' all_numeric count_fs count_us
  end.

(** [contents] is [None] for a NULL pointer, and the text otherwise. *)
Definition ttype_many_chars (contents : option (list Z)) : TokenType :=
  match contents with
  | None => TT_NO_TOKEN
  | Some s =>
      match ttype_many_loop s true 0 0 with
      | inl k => k
      | inr (all_numeric, _, count_us) =>
          let i := Z.of_nat (length s) in
          if all_numeric then
            if (count_us =? 1) && (default 0 (s !! Z.to_nat (i - 1)) =? ch_u)
            then TT_LITERAL
            else if count_us =? 0 then TT_LITERAL
            else TT_IDENTIFIER
          else TT_IDENTIFIER
      end
  end.

Definition ttype_from_string (s : list Z) : TokenType :=
  let len := strlen s in
  let token := ttype_one_char (default 0 (s !! 0%nat)) in
  if (len =? 1) && negb (if token is TT_NO_TOKEN then true else false)
  then token
  else ttype_many_chars (Some s).

(** ** The lexer *)

(** What a call leaves behind: the [int] it returns, the lines it hands to
    [PRINT_ERROR] (the format strings, without their arguments), the lexer
    and the caller's token. *)
Record Outcome : Set := mkOutcome {
  ret : Z;
  err : list string;
  lx : Lexer;
  tok : Token
}.

Definition eof : list Z := Eval cbv in c_str "[end of file]".
Definition nline : list Z := Eval cbv in c_str "[newline]".

Definition is_blank (c : Z) : bool := (c =? ch_space) || (c =? ch_tab).

(** The [while] loop of [skip_to_token].  [pending] and [consumed] are the
    two sides of the cursor; every turn reads one byte with [fgetc], so the
    loop is a recursion on the bytes still to come.  [cur] is a [char]: a
    byte 0xFF stops the loop like the end of the file does.  [pass] is an
    [int] that only counts down from 2, on streams shorter than 2^31. *)
Fixpoint skip_loop (pending consumed : list Z) (prev in_block pass : Z) : Z * FILE :=
  match pending with
  | [] => (-1, mkFILE consumed [])
  | b :: rest =>
      let f := mkFILE (b :: consumed) rest in
      let cur := to_char b in
      if cur =? EOF then (-1, f)
      else
        let '(slash, in_block, pass) :=
          if (cur =? ch_slash) && (prev =? ch_slash) && (in_block =? 0)
          then (false, 1, pass)
          else if (cur =? ch_star) && (prev =? ch_slash) && (in_block =? 0)
          then (false, 2, 2)
          else if ((in_block =? 1) && (cur =? ch_nl))
                  || ((in_block =? 2) && (cur =? ch_slash) && (prev =? ch_star)
                      && (pass <=? 0))
          then (false, 0, pass)
          else if (prev =? ch_slash)
                  && negb ((cur =? ch_star) || (cur =? ch_slash))
                  && (in_block =? 0)
          then (true, in_block, pass)
          else (false, in_block, pass) in
        if slash then (0, fseek_back f)
        else if negb (is_blank cur || (cur =? ch_slash)) && (in_block =? 0)
        then (0, fseek_back f)
        else skip_loop rest (b :: consumed) cur in_block (pass - 1)
  end.

Definition skip_to_token (l : Lexer) : Z * Lexer :=
  let '(c, f) := fgetc (fp l) in
  let cur := to_char c in
  if negb (cur =? EOF) then
    let prev := cur in
    if negb (is_blank cur || (cur =? ch_slash))
    then (0, set_fp l (fseek_back f))
    else
      let '(r, f') := skip_loop (pending f) (consumed f) prev 0 0 in
      (r, set_fp l f')
  else (-1, set_fp l f).

(** How the [for (;;)] loop of [lex] ends. *)
Inductive IdLoop : Set :=
  | IdBreak (c : Z) (f : FILE) (contents : list Z) (pos : Z)
  | IdTooLong (f : FILE) (contents : list Z).

Section Lex.

Variable TOKEN_LENGTH : Z.
Variable TOKEN_PUTBACKS : Z.

(** Modelled from the spec: [MAX_TOKEN_LEN], the longest text of a token,
    is the buffer less its NUL: the bound [pos >= TOKEN_LENGTH - 1] that
    [lex] checks before it stores a character. *)
Definition MAX_TOKEN_LEN : Z := TOKEN_LENGTH - 1.

(** The [for (;;)] loop of [lex]: one [getc] a turn. *)
Fixpoint id_loop (pending consumed contents : list Z) (pos : Z) : IdLoop :=
  match pending with
  | [] => IdBreak EOF (mkFILE consumed []) contents pos
  | c :: rest =>
      let f := mkFILE (c :: consumed) rest in
      if negb (is_valid_numeric_or_id_char (to_char c))
      then IdBreak c f contents pos
      else if pos >=? TOKEN_LENGTH - 1
      then IdTooLong f contents
      else id_loop rest (c :: consumed)
             (<[ Z.to_nat pos := to_char c ]> contents) (pos + 1)
  end.

Definition lex (l : Lexer) (t : Token) : Outcome :=
  if unlexed_count l >? 0 then
    let l := set_unlexed_count l (unlexed_count l - 1) in
    let t := default t (unlexed l !! Z.to_nat (unlexed_count l)) in
    mkOutcome 0 [] l t
  else
    let '(_, l) := skip_to_token l in
    let '(init, f) := getc (fp l) in
    let l := set_fp l f in
    let t := mkToken (replicate (Z.to_nat TOKEN_LENGTH) 0) (tok_length t) (tok_type t) in
    if init =? EOF then
      mkOutcome 0 [] l (mkToken (strcpy (contents t) eof) (strlen eof) TT_EOF)
    else if (init =? ch_space) || (init =? ch_tab) then
      mkOutcome (-1) ["internal error: did not skip whitespace correctly"%string] l t
    else if init =? ch_nl then
      mkOutcome 0 [] l (mkToken (strcpy (contents t) nline) (strlen nline) TT_NEWLINE)
    else
      let pos := 0 in
      let t := mkToken (<[ Z.to_nat pos := to_char init ]> (contents t))
                 (tok_length t) (tok_type t) in
      let pos := pos + 1 in
      if in_string (to_char init) single_char_tokens then
        mkOutcome 0 [] l (mkToken (contents t) pos (ttype_one_char (to_char init)))
      else if is_valid_numeric_or_id_char (to_char init) then
        match id_loop (pending (fp l)) (consumed (fp l)) (contents t) pos with
        | IdTooLong f buf =>
            mkOutcome (-1)
              ["identifier too long, over %d characters"%string;
               "identifier began with the following:"%string;
               "%.*s"%string]
              (set_fp l f) (mkToken buf (tok_length t) (tok_type t))
        | IdBreak c f buf pos =>
            let l := set_fp l (ungetc c f) in
            let buf := <[ Z.to_nat pos := 0 ]> buf in
            mkOutcome 0 [] l (mkToken buf pos (ttype_many_chars (Some (cstr buf))))
        end
      else
        (* TODO - parse character or string literal *)
        mkOutcome 0 [] l t.

Definition unlex (l : Lexer) (t : Token) : Z * list string * Lexer :=
  if unlexed_count l >=? TOKEN_PUTBACKS then
    (-1, ["internal: tried to unlex more than %d tokens at a time"%string], l)
  else
    let l := mkLexer (fp l) (<[ Z.to_nat (unlexed_count l) := t ]> (unlexed l))
               (unlexed_count l) in
    (0, [], set_unlexed_count l (unlexed_count l + 1)).

(** A caller that reads [k] tokens in a row into the same [Token]. *)
Fixpoint lex_many (k : nat) (l : Lexer) (t : Token) : list Outcome :=
  match k with
  | O => []
  | S k' => let o := lex l t in o :: lex_many k' (lx o) (tok o)
  end.

(** A caller that hands the tokens [ts] back, the first one first. *)
Fixpoint unlex_all (l : Lexer) (ts : list Token) : list Z * Lexer :=
  match ts with
  | [] => ([], l)
  | t :: ts' =>
      let '(r, _, l') := unlex l t in
      let '(rs, l'') := unlex_all l' ts' in
      (r :: rs, l'')
  end.

End Lex.

(** ** Vocabulary of the specification *)

Definition is_digit (c : Z) : Prop := ch_0 <= c <= ch_9.

(** The text of a token, as the parser reads it. *)
Definition token_text (t : Token) : list Z := cstr (contents t).

(** A token as the parser sees it: text, length and kind. *)
Definition token_view (t : Token) : list Z * Z * TokenType :=
  (token_text t, tok_length t, tok_type t).

(** The tokens that [lex] builds for the end of the file and for a newline. *)
Definition eof_token (TOKEN_LENGTH : Z) : Token :=
  mkToken (strcpy (replicate (Z.to_nat TOKEN_LENGTH) 0) eof) (strlen eof) TT_EOF.

Definition newline_token (TOKEN_LENGTH : Z) : Token :=
  mkToken (strcpy (replicate (Z.to_nat TOKEN_LENGTH) 0) nline) (strlen nline) TT_NEWLINE.

(** What ends a run of identifier characters: the end of the stream, or a
    byte that is not an identifier character. *)
Definition terminated (rest : list Z) : Prop :=
  match rest with
  | [] => True
  | b :: _ => is_valid_numeric_or_id_char (to_char b) = false ∧ 0 <= b < 256
  end.

(** The four failures of the specification, told apart by their report. *)
Definition InternalInvariantViolation (o : Outcome) : Prop :=
  ret o = -1 ∧ err o = ["internal error: did not skip whitespace correctly"%string].

Definition IdentifierTooLong (o : Outcome) : Prop :=
  ret o = -1 ∧ head (err o) = Some "identifier too long, over %d characters"%string.

Definition PushbackBufferFull (r : Z * list string * Lexer) : Prop :=
  r.1.1 = -1
  ∧ r.1.2 = ["internal: tried to unlex more than %d tokens at a time"%string].

(** The pushback array as [lex.h] declares it, and the bound on its count. *)
Definition unlexed_array (N : Z) (l : Lexer) : Prop :=
  length (unlexed l) = Z.to_nat N.

Definition pushback_inv (N : Z) (l : Lexer) : Prop :=
  0 <= unlexed_count l <= N.

(** What the loop of [ttype_many_chars] keeps track of. *)
Definition num_or_u (c : Z) : bool :=
  negb (((c >? ch_9) || (c <? ch_0)) && negb (c =? ch_u)).

Definition count_u (s : list Z) : Z :=
  Z.of_nat (length (filter (λ c, c = ch_u) s)).

(** A byte of the stream, as [getc] returns it. *)
Definition is_byte (b : Z) : Prop := 0 <= b < 256.

(** The stream [f] with its cursor moved [k] bytes further. *)
Definition cursor_at (f : FILE) (k : nat) : FILE :=
  mkFILE (reverse (take k (pending f)) ++ consumed f) (drop k (pending f)).

(** Whether a star directly followed by a slash occurs in [s], when [prev]
    is the character before [s]; and whether it occurs in [s] itself. *)
Fixpoint star_slash (prev : Z) (s : list Z) : bool :=
  match s with
  | [] => false
  | b :: s' =>
      ((prev =? ch_star) && (to_char b =? ch_slash)) || star_slash (to_char b) s'
  end.

Definition has_star_slash (s : list Z) : bool := star_slash 0 s.

(** The character that the loop of [skip_to_token] holds in [prev] after
    the bytes [s], when it held [prev] before them. *)
Definition last_char (prev : Z) (s : list Z) : Z :=
  foldl (λ _ b, to_char b) prev s.

(** The kinds that stand for a token of the input text. *)
Definition is_punct_kind (k : TokenType) : Prop :=
  k = TT_OPAREN ∨ k = TT_CPAREN ∨ k = TT_OBRACE ∨ k = TT_CBRACE
  ∨ k = TT_OBRACKET ∨ k = TT_CBRACKET ∨ k = TT_SEMI.

Definition is_word_kind (k : TokenType) : Prop :=
  k = TT_LITERAL ∨ k = TT_IDENTIFIER.

(** * Theorems *)

(** Closes [Forall P w] for a run [w] of given characters, and [c ∉ s] for
    a given text [s]. *)
Ltac run_of_chars :=
  repeat (apply Forall_cons_2; [reflexivity|]); apply Forall_nil_2.

Ltac not_in_text :=
  repeat (apply not_elem_of_cons; split; [by vm_compute|]); apply not_elem_of_nil.

(** Closes the side conditions of a theorem at a given input. *)
Ltac at_input :=
  first
    [ reflexivity
    | by vm_compute
    | repeat (apply Forall_cons_2; [first [reflexivity | by vm_compute]|]);
      apply Forall_nil_2 ].

(** The table of [test_ttype_from_string]. *)
Example test_ttype_from_string :
  ttype_from_string (c_str "1") = TT_LITERAL
  ∧ ttype_from_string (c_str "1.2") = TT_LITERAL
  ∧ ttype_from_string (c_str "1u") = TT_LITERAL
  ∧ ttype_from_string (c_str "1.2f") = TT_LITERAL
  ∧ ttype_from_string (c_str "1.f") = TT_LITERAL
  ∧ ttype_from_string (ch_dquote :: c_str "Planck" ++ [ch_dquote]) = TT_LITERAL
  ∧ ttype_from_string (c_str "'Language'") = TT_LITERAL
  ∧ ttype_from_string (c_str "Jaba") = TT_IDENTIFIER
  ∧ ttype_from_string (c_str "cat_") = TT_IDENTIFIER
  ∧ ttype_from_string (c_str "(") = TT_OPAREN
  ∧ ttype_from_string (c_str "}") = TT_CBRACE
  ∧ ttype_from_string (c_str ";") = TT_SEMI.
Proof. repeat split; reflexivity. Qed.

(** ** The classifier *)

Lemma count_u_nonneg s : 0 <= count_u s.
Proof. unfold count_u. lia. Qed.

Lemma count_u_cons c s :
  count_u (c :: s) = (if c =? ch_u then 1 else 0) + count_u s.
Proof.
  unfold count_u. rewrite filter_cons.
  destruct (decide (c = ch_u)) as [->|Hne].
  - rewrite Z.eqb_refl. cbn [length]. lia.
  - apply Z.eqb_neq in Hne. rewrite Hne. lia.
Qed.

Lemma count_u_app s1 s2 : count_u (s1 ++ s2) = count_u s1 + count_u s2.
Proof. unfold count_u. rewrite filter_app, length_app. lia. Qed.

(** Without a period or a quote the loop runs to the end of the text. *)
Lemma ttype_many_loop_plain s : ∀ a f u,
  ch_dot ∉ s → ch_squote ∉ s → ch_dquote ∉ s →
  ∃ f', ttype_many_loop s a f u = inr (a && forallb num_or_u s, f', u + count_u s).
Proof.
  induction s as [|c s IH]; intros a f u Hd Hs Hq.
  - exists f. cbn. rewrite andb_true_r, Z.add_0_r. done.
  - apply not_elem_of_cons in Hd as [Hd1 Hd]. apply not_elem_of_cons in Hs as [Hs1 Hs].
    apply not_elem_of_cons in Hq as [Hq1 Hq].
    cbn [ttype_many_loop].
    assert ((c =? ch_dot) = false) as -> by (apply Z.eqb_neq; congruence).
    assert ((c =? ch_squote) = false) as -> by (apply Z.eqb_neq; congruence).
    assert ((c =? ch_dquote) = false) as -> by (apply Z.eqb_neq; congruence).
    cbn [orb].
    edestruct IH as [f' ->]; [done..|]. exists f'.
    rewrite count_u_cons. cbn [forallb]. unfold num_or_u at 2.
    destruct ((c >? ch_9) || (c <? ch_0)), (c =? ch_u), a; cbn [andb negb];
      rewrite ?Z.add_assoc, ?Z.add_0_r; reflexivity.
Qed.

Lemma num_or_u_digit c : num_or_u c = true → c ≠ ch_u → is_digit c.
Proof.
  unfold num_or_u, is_digit, ch_u, ch_9, ch_0. intros H Hne.
  destruct (Z.gtb_spec c 57), (Z.ltb_spec c 48), (Z.eqb_spec c 117); cbn in H; try done; lia.
Qed.

Lemma digit_num_or_u c : is_digit c → num_or_u c = true ∧ c ≠ ch_u.
Proof.
  unfold num_or_u, is_digit, ch_u, ch_9, ch_0. intros H.
  destruct (Z.gtb_spec c 57), (Z.ltb_spec c 48), (Z.eqb_spec c 117); cbn; split; try done; lia.
Qed.

Lemma digits_count_u s : Forall is_digit s → forallb num_or_u s = true ∧ count_u s = 0.
Proof.
  induction 1 as [|c s Hc _ [IH1 IH2]]; [done|].
  apply digit_num_or_u in Hc as [Hc Hne].
  rewrite count_u_cons. cbn [forallb]. rewrite Hc, IH1, IH2.
  apply Z.eqb_neq in Hne. rewrite Hne. done.
Qed.

Lemma count_u_0_digits s : forallb num_or_u s = true → count_u s = 0 → Forall is_digit s.
Proof.
  induction s as [|c s IH]; [constructor|].
  cbn [forallb]. rewrite count_u_cons. intros [Hc Hs]%andb_true_iff Hn.
  pose proof (count_u_nonneg s).
  destruct (Z.eqb_spec c ch_u); [lia|].
  constructor; [by apply num_or_u_digit | apply IH; [done | lia]].
Qed.

(** C10: the one-character text "u" is a literal: the loop exempts [u] from
    the all-numeric test, and the rule for a trailing [u] asks for no digit
    before it. *)
Theorem C10_lone_u_is_literal :
  ttype_many_chars (Some (c_str "u")) = TT_LITERAL
  ∧ ttype_many_loop [ch_u] true 0 0 = inr (true, 0, 1).
Proof. split; reflexivity. Qed.

(** C9: on a text without a period and without a quote character,
    [ttype_many_chars] answers Literal exactly when the text is all decimal
    digits, or all decimal digits followed by one trailing [u]; every other
    such text is an Identifier. *)
Theorem C9_literal_iff_digits_or_trailing_u (s : list Z) :
  ch_dot ∉ s → ch_squote ∉ s → ch_dquote ∉ s →
  (ttype_many_chars (Some s) = TT_LITERAL
   ↔ Forall is_digit s ∨ ∃ ds, Forall is_digit ds ∧ s = ds ++ [ch_u])
  ∧ (ttype_many_chars (Some s) ≠ TT_LITERAL
     → ttype_many_chars (Some s) = TT_IDENTIFIER).
Proof.
  intros Hd Hs Hq. unfold ttype_many_chars.
  destruct (ttype_many_loop_plain s true 0 0 Hd Hs Hq) as [f' ->].
  cbn [andb]. rewrite Z.add_0_l.
  assert (default 0 (s !! Z.to_nat (Z.of_nat (length s) - 1)) = default 0 (last s)) as ->.
  { rewrite last_lookup. do 2 f_equal. lia. }
  destruct (forallb num_or_u s) eqn:Hall.
  - destruct (Z.eqb_spec (count_u s) 1) as [H1|H1]; cbn [andb].
    + destruct (Z.eqb_spec (default 0 (last s)) ch_u) as [Hl|Hl].
      * split; [|done]. split; [intros _|done]. right.
        destruct s as [|c s] using rev_ind; [done|].
        rewrite last_snoc in Hl. cbn in Hl. subst c. exists s. split; [|done].
        rewrite forallb_app in Hall. apply andb_true_iff in Hall as [Hall _].
        rewrite count_u_app, count_u_cons in H1. cbn in H1.
        apply count_u_0_digits; [done|]. unfold count_u in *. cbn in H1. lia.
      * rewrite H1. cbn. split; [|done]. split; [done|].
        intros [Hdig|(ds & Hdig & ->)].
        -- apply digits_count_u in Hdig. lia.
        -- rewrite last_snoc in Hl. done.
    + destruct (Z.eqb_spec (count_u s) 0) as [H0|H0].
      * split; [|done]. split; [intros _|done]. left. by apply count_u_0_digits.
      * split; [|done]. split; [done|].
        intros [Hdig|(ds & Hdig & ->)].
        -- apply digits_count_u in Hdig. lia.
        -- apply digits_count_u in Hdig as [_ Hn].
           rewrite count_u_app, Hn in H1. by cbn in H1.
  - split; [|done]. split; [done|].
    intros [Hdig|(ds & Hdig & ->)].
    + apply digits_count_u in Hdig as [Hdig _]. congruence.
    + apply digits_count_u in Hdig as [Hdig _].
      rewrite forallb_app, Hdig in Hall. by cbn in Hall.
Qed.

(** ** The pushback buffer *)

Lemma skip_to_token_pushback l :
  unlexed (skip_to_token l).2 = unlexed l
  ∧ unlexed_count (skip_to_token l).2 = unlexed_count l.
Proof.
  unfold skip_to_token. destruct (fgetc (fp l)) as [c f].
  destruct (negb (to_char c =? EOF)); [|done].
  destruct (negb _); [done|].
  by destruct (skip_loop _ _ _ _ _).
Qed.

(** Reading from the stream leaves the pushback buffer alone. *)
Lemma lex_stream_pushback TOKEN_LENGTH l t :
  unlexed_count l <= 0 →
  unlexed (lx (lex TOKEN_LENGTH l t)) = unlexed l
  ∧ unlexed_count (lx (lex TOKEN_LENGTH l t)) = unlexed_count l.
Proof.
  intros Hc. unfold lex.
  destruct (Z.gtb_spec (unlexed_count l) 0); [lia|].
  destruct (skip_to_token_pushback l) as [Hu Hn].
  destruct (skip_to_token l) as [r l1]. cbn [snd] in Hu, Hn.
  destruct (getc (fp l1)) as [init f].
  repeat match goal with
         | |- context [if ?b then _ else _] => destruct b
         | |- context [match ?x with IdBreak _ _ _ _ => _ | IdTooLong _ _ => _ end] =>
             destruct x
         end; done.
Qed.

(** Popping: with a token waiting, [lex] takes the topmost one and leaves
    the stream and the array as they are. *)
Lemma lex_pop TOKEN_LENGTH l t0 t :
  0 < unlexed_count l →
  unlexed l !! Z.to_nat (unlexed_count l - 1) = Some t →
  lex TOKEN_LENGTH l t0 = mkOutcome 0 [] (set_unlexed_count l (unlexed_count l - 1)) t.
Proof.
  intros Hc Ht. unfold lex.
  destruct (Z.gtb_spec (unlexed_count l) 0); [|lia].
  cbn. by rewrite Ht.
Qed.

Lemma unlex_push TOKEN_PUTBACKS l t :
  unlexed_count l < TOKEN_PUTBACKS →
  unlex TOKEN_PUTBACKS l t
  = (0, [], mkLexer (fp l) (<[ Z.to_nat (unlexed_count l) := t ]> (unlexed l))
              (unlexed_count l + 1)).
Proof.
  intros Hc. unfold unlex.
  by destruct (Z.geb_spec (unlexed_count l) TOKEN_PUTBACKS); [lia|].
Qed.

(** A run of [unlex] calls that fits: each call succeeds, the tokens sit
    above the old top in the order of the calls, and what was below is
    kept. *)
Lemma unlex_all_fits TOKEN_PUTBACKS ts : ∀ l,
  unlexed_array TOKEN_PUTBACKS l →
  0 <= unlexed_count l →
  unlexed_count l + Z.of_nat (length ts) <= TOKEN_PUTBACKS →
  ∃ arr,
    unlex_all TOKEN_PUTBACKS l ts
    = (replicate (length ts) 0,
       mkLexer (fp l) arr (unlexed_count l + Z.of_nat (length ts)))
    ∧ length arr = Z.to_nat TOKEN_PUTBACKS
    ∧ (∀ i t, ts !! i = Some t → arr !! (Z.to_nat (unlexed_count l) + i)%nat = Some t)
    ∧ (∀ j, (j < Z.to_nat (unlexed_count l))%nat → arr !! j = unlexed l !! j).
Proof.
  unfold unlexed_array.
  induction ts as [|t ts IH]; intros l Harr H0 Hfit.
  - exists (unlexed l). cbn. rewrite Z.add_0_r. by destruct l.
  - cbn [length] in Hfit. cbn [unlex_all].
    rewrite unlex_push by lia.
    set (l1 := mkLexer _ _ _).
    destruct (IH l1) as (arr & -> & Hlen & Hts & Hlow); subst l1; cbn.
    + by rewrite length_insert.
    + lia.
    + lia.
    + cbn in Hts, Hlow. exists arr. split_and!.
      * by replace (unlexed_count l + 1 + Z.of_nat (length ts))
          with (unlexed_count l + Z.of_nat (S (length ts))) by lia.
      * done.
      * intros [|i] t' Hi; cbn in Hi.
        -- simplify_eq. rewrite Nat.add_0_r, Hlow by lia.
           apply list_lookup_insert_eq. lia.
        -- rewrite <- (Hts i t' Hi). f_equal. lia.
      * intros j Hj. rewrite Hlow by lia. apply list_lookup_insert_ne. lia.
Qed.

(** Reading back what sits on top of the buffer: the tokens come in the
    reverse order, and the stream and the array are not touched. *)
Lemma lex_many_pops TOKEN_LENGTH ts : ∀ l t0 c,
  0 <= c →
  unlexed_count l = c + Z.of_nat (length ts) →
  (∀ i t, ts !! i = Some t → unlexed l !! (Z.to_nat c + i)%nat = Some t) →
  let os := lex_many TOKEN_LENGTH (length ts) l t0 in
  ret <$> os = replicate (length ts) 0
  ∧ tok <$> os = reverse ts
  ∧ Forall (λ o, fp (lx o) = fp l ∧ unlexed (lx o) = unlexed l) os
  ∧ unlexed_count <$> (lx <$> last os) = (if ts is [] then None else Some c).
Proof.
  induction ts as [|t ts IH] using rev_ind; intros l t0 c H0 Hc Hts; [done|].
  rewrite length_app in *. cbn [length] in *. rewrite Nat.add_1_r in *.
  cbv zeta. cbn [lex_many].
  assert (unlexed l !! Z.to_nat (unlexed_count l - 1) = Some t) as Htop.
  { replace (Z.to_nat (unlexed_count l - 1)) with (Z.to_nat c + length ts)%nat by lia.
    apply Hts. by rewrite lookup_app_r, Nat.sub_diag. }
  rewrite (lex_pop _ _ _ t) by (done || lia). cbn [lx tok].
  set (l1 := set_unlexed_count l _).
  destruct (IH l1 t c) as (Hr & Ht & Hf & Hl); subst l1; cbn; try lia.
  { intros i t' Hi. apply Hts. by apply lookup_app_l_Some. }
  cbn in Hr, Ht, Hf, Hl. split_and!.
  - by rewrite Hr.
  - by rewrite Ht, reverse_snoc.
  - by constructor.
  - destruct (lex_many _ _ _ _) as [|o os] eqn:E.
    + destruct ts; [|done]. cbn. f_equal. cbn in Hc. lia.
    + destruct ts; [done|]. destruct (_ ++ _) eqn:E'; [by destruct ts|]. done.
Qed.

(** C2: on a lexer whose pushback buffer is not full, [unlex t] and then
    [lex] succeed and give back [t] itself (its contents, length and kind)
    without a read from the stream; and [k] tokens handed back in a row,
    as far as they fit, come back from [k] calls of [lex] in the reverse
    order, after which the buffer holds as much as before. *)
Theorem C2_unlex_then_lex_round_trip (TOKEN_LENGTH TOKEN_PUTBACKS : Z)
    (l : Lexer) (t0 : Token) :
  unlexed_array TOKEN_PUTBACKS l →
  0 <= unlexed_count l →
  (∀ t, unlexed_count l < TOKEN_PUTBACKS →
     (unlex TOKEN_PUTBACKS l t).1 = (0, [])
     ∧ lex TOKEN_LENGTH (unlex TOKEN_PUTBACKS l t).2 t0
       = mkOutcome 0 [] (set_unlexed_count (unlex TOKEN_PUTBACKS l t).2 (unlexed_count l)) t
     ∧ fp (lx (lex TOKEN_LENGTH (unlex TOKEN_PUTBACKS l t).2 t0)) = fp l)
  ∧ (∀ ts, unlexed_count l + Z.of_nat (length ts) <= TOKEN_PUTBACKS →
     (unlex_all TOKEN_PUTBACKS l ts).1 = replicate (length ts) 0
     ∧ ret <$> lex_many TOKEN_LENGTH (length ts) (unlex_all TOKEN_PUTBACKS l ts).2 t0
       = replicate (length ts) 0
     ∧ tok <$> lex_many TOKEN_LENGTH (length ts) (unlex_all TOKEN_PUTBACKS l ts).2 t0
       = reverse ts
     ∧ Forall (λ o, fp (lx o) = fp l)
         (lex_many TOKEN_LENGTH (length ts) (unlex_all TOKEN_PUTBACKS l ts).2 t0)
     ∧ unlexed_count <$>
         (lx <$> last (lex_many TOKEN_LENGTH (length ts)
                         (unlex_all TOKEN_PUTBACKS l ts).2 t0))
       = (if ts is [] then None else Some (unlexed_count l))).
Proof.
  intros Harr H0. split.
  - intros t Hc. rewrite unlex_push by done. cbn [fst snd].
    split; [done|].
    rewrite (lex_pop _ _ _ t); cbn.
    + split; [|done]. do 2 f_equal. lia.
    + lia.
    + replace (unlexed_count l + 1 - 1) with (unlexed_count l) by lia.
      apply list_lookup_insert_eq. unfold unlexed_array in Harr. lia.
  - intros ts Hfit.
    destruct (unlex_all_fits TOKEN_PUTBACKS ts l Harr H0 Hfit)
      as (arr & -> & Hlen & Hts & Hlow).
    cbn [fst snd]. split; [done|].
    set (l1 := mkLexer _ _ _).
    destruct (lex_many_pops TOKEN_LENGTH ts l1 t0 (unlexed_count l) H0)
      as (Hr & Ht & Hf & Hl); [done|done|].
    split_and!; try done.
    eapply Forall_impl; [exact Hf|]. by intros o [-> _].
Qed.

(** C8: with [TOKEN_PUTBACKS] tokens already held, [unlex] fails with its
    buffer-full report and hands the lexer back as it was; below that it
    stores the token on top and counts one more; so the count stays within
    [0, TOKEN_PUTBACKS] through every call of [lex] and [unlex]. *)
Theorem C8_unlex_bounded (TOKEN_LENGTH TOKEN_PUTBACKS : Z)
    (l : Lexer) (t t0 : Token) :
  pushback_inv TOKEN_PUTBACKS l →
  (unlexed_count l = TOKEN_PUTBACKS →
     PushbackBufferFull (unlex TOKEN_PUTBACKS l t)
     ∧ (unlex TOKEN_PUTBACKS l t).2 = l)
  ∧ (unlexed_count l < TOKEN_PUTBACKS →
     unlex TOKEN_PUTBACKS l t
     = (0, [], mkLexer (fp l) (<[ Z.to_nat (unlexed_count l) := t ]> (unlexed l))
                 (unlexed_count l + 1)))
  ∧ pushback_inv TOKEN_PUTBACKS (unlex TOKEN_PUTBACKS l t).2
  ∧ pushback_inv TOKEN_PUTBACKS (lx (lex TOKEN_LENGTH l t0)).
Proof.
  unfold pushback_inv. intros Hinv. split; [|split; [|split]].
  - intros Hfull. unfold unlex, PushbackBufferFull.
    by destruct (Z.geb_spec (unlexed_count l) TOKEN_PUTBACKS); [|lia].
  - apply unlex_push.
  - unfold unlex.
    destruct (Z.geb_spec (unlexed_count l) TOKEN_PUTBACKS);
      unfold set_unlexed_count; cbn [snd unlexed_count]; lia.
  - destruct (Z.gtb_spec (unlexed_count l) 0) as [Hpos|Hz].
    + unfold lex. destruct (Z.gtb_spec (unlexed_count l) 0); [|lia].
      unfold set_unlexed_count; cbn [lx unlexed_count]. lia.
    + destruct (lex_stream_pushback TOKEN_LENGTH l t0) as [_ ->]; lia.
Qed.

(** ** Characters *)

Lemma to_char_ascii b : 0 <= b < 128 → to_char b = b.
Proof. intros H. unfold to_char. rewrite Z.mod_small; lia. Qed.

Lemma to_char_range x : -128 <= to_char x < 128.
Proof. unfold to_char. pose proof (Z.mod_pos_bound (x + 128) 256). lia. Qed.

Lemma valid_char_range b : is_valid_numeric_or_id_char b = true → 46 <= b <= 122.
Proof.
  unfold is_valid_numeric_or_id_char, isalnum, ch_0, ch_9, ch_underscore, ch_dot.
  rewrite !orb_true_iff, !andb_true_iff, !Z.leb_le, !Z.eqb_eq. lia.
Qed.

Lemma valid_char_not_slash b : is_valid_numeric_or_id_char b = true → b ≠ ch_slash.
Proof.
  unfold is_valid_numeric_or_id_char, isalnum, ch_0, ch_9, ch_underscore, ch_dot, ch_slash.
  rewrite !orb_true_iff, !andb_true_iff, !Z.leb_le, !Z.eqb_eq. lia.
Qed.

Lemma valid_char_to_char b : is_valid_numeric_or_id_char b = true → to_char b = b.
Proof. intros H%valid_char_range. apply to_char_ascii. lia. Qed.

Lemma valid_char_not_single b :
  is_valid_numeric_or_id_char b = true → in_string b single_char_tokens = false.
Proof.
  intros H. pose proof (valid_char_range b H) as Hr. revert H.
  unfold is_valid_numeric_or_id_char, isalnum, ch_0, ch_9, ch_underscore, ch_dot.
  rewrite !orb_true_iff, !andb_true_iff, !Z.leb_le, !Z.eqb_eq. intros H.
  unfold single_char_tokens. cbn [in_string].
  repeat match goal with
         | |- context [?a =? b] => destruct (Z.eqb_spec a b); [lia|]
         end.
  done.
Qed.

(** ** The skip-scanner *)

Lemma set_fp_same l : set_fp l (fp l) = l.
Proof. by destruct l. Qed.

(** A first character that is neither blank nor a slash: the token begins
    at once, and the cursor is put back where it was. *)
Lemma skip_to_token_immediate l b rest :
  pending (fp l) = b :: rest →
  to_char b ≠ EOF → is_blank (to_char b) = false → to_char b ≠ ch_slash →
  skip_to_token l = (0, l).
Proof.
  intros Hp He Hb Hs. unfold skip_to_token, fgetc, getc. rewrite Hp.
  apply Z.eqb_neq in He, Hs. rewrite He, Hb, Hs. cbn.
  destruct l as [[c p] u n]. cbn in *. by subst.
Qed.

Lemma skip_to_token_exhausted l : pending (fp l) = [] → skip_to_token l = (-1, l).
Proof.
  intros Hp. unfold skip_to_token, fgetc, getc. rewrite Hp. cbn.
  by rewrite set_fp_same.
Qed.

(** Blanks in the Normal state, when the character before is not a slash:
    the loop reads on. *)
Lemma skip_loop_blanks ws : ∀ more consumed prev pass,
  Forall (λ b, is_blank b = true) ws →
  prev ≠ ch_slash →
  ∃ prev' pass',
    skip_loop (ws ++ more) consumed prev 0 pass
    = skip_loop more (reverse ws ++ consumed) prev' 0 pass'
    ∧ prev' ≠ ch_slash.
Proof.
  induction ws as [|b ws IH]; intros more consumed prev pass Hws Hprev.
  - by exists prev, pass.
  - apply Forall_cons in Hws as [Hb Hws].
    assert (b = ch_space ∨ b = ch_tab) as Hcase.
    { unfold is_blank in Hb. rewrite orb_true_iff, !Z.eqb_eq in Hb. done. }
    assert (to_char b = b) as Hchar.
    { apply to_char_ascii. unfold ch_space, ch_tab in Hcase. lia. }
    assert (b ≠ ch_slash) as Hns by (unfold ch_space, ch_tab, ch_slash in *; lia).
    destruct (IH more (b :: consumed) b (pass - 1) Hws Hns) as (prev' & pass' & Heq & Hp').
    exists prev', pass'. split; [|done].
    rewrite reverse_cons, <- app_assoc. cbn [app]. rewrite <- Heq.
    cbn [app skip_loop]. rewrite Hchar.
    apply Z.eqb_neq in Hprev. rewrite Hprev, Hb.
    destruct Hcase as [-> | ->]; reflexivity.
Qed.

(** The turn of the loop that the standalone slash ends: in the Normal
    state, after a slash, a character that is neither a star nor a slash
    makes the loop step back over that one character and return. *)
Lemma skip_loop_after_slash b rest consumed pass :
  to_char b ≠ EOF → to_char b ≠ ch_star → to_char b ≠ ch_slash →
  skip_loop (b :: rest) consumed ch_slash 0 pass = (0, mkFILE consumed (b :: rest)).
Proof.
  intros He Hst Hsl. cbn [skip_loop].
  apply Z.eqb_neq in He, Hst, Hsl. rewrite He, Hst, Hsl. reflexivity.
Qed.

(** A slash in the Normal state, when the character before is not a slash:
    the loop keeps it as [prev] and reads on. *)
Lemma skip_loop_slash more consumed prev pass :
  prev ≠ ch_slash →
  skip_loop (ch_slash :: more) consumed prev 0 pass
  = skip_loop more (ch_slash :: consumed) ch_slash 0 (pass - 1).
Proof.
  intros Hprev%Z.eqb_neq. cbn [skip_loop].
  change (to_char ch_slash) with ch_slash. by rewrite Hprev.
Qed.

(** C4: a standalone slash read in the Normal state (at the start, or after
    blanks), with a next character that is neither a star nor a slash, is
    dropped: [skip_to_token] succeeds with the cursor moved back by exactly
    one character, past the slash and before the character that follows
    it, which is therefore the first character the token reader gets. *)
Theorem C4_standalone_slash_discarded (l : Lexer) (ws : list Z) (b : Z) (rest : list Z) :
  Forall (λ c, is_blank c = true) ws →
  pending (fp l) = ws ++ ch_slash :: b :: rest →
  to_char b ≠ EOF → to_char b ≠ ch_star → to_char b ≠ ch_slash →
  skip_to_token l
  = (0, set_fp l (mkFILE (ch_slash :: reverse ws ++ consumed (fp l)) (b :: rest)))
  ∧ getc (fp (skip_to_token l).2)
    = (b, mkFILE (b :: ch_slash :: reverse ws ++ consumed (fp l)) rest).
Proof.
  intros Hws Hp He Hst Hsl.
  assert (skip_to_token l
          = (0, set_fp l (mkFILE (ch_slash :: reverse ws ++ consumed (fp l)) (b :: rest))))
    as Hskip.
  { unfold skip_to_token, fgetc, getc. rewrite Hp.
    destruct ws as [|w ws]; cbn [app pending consumed].
    - change (to_char ch_slash) with ch_slash. cbn [negb Z.eqb ch_slash EOF].
      replace (negb (is_blank 47 || (47 =? 47))) with false by reflexivity.
      fold ch_slash. by rewrite skip_loop_after_slash.
    - apply Forall_cons in Hws as [Hw Hws].
      assert (w = ch_space ∨ w = ch_tab) as Hcase.
      { unfold is_blank in Hw. rewrite orb_true_iff, !Z.eqb_eq in Hw. done. }
      assert (to_char w = w) as ->.
      { apply to_char_ascii. unfold ch_space, ch_tab in Hcase. lia. }
      assert (w ≠ ch_slash) as Hns by (unfold ch_space, ch_tab, ch_slash in *; lia).
      assert (w ≠ EOF) as Hne%Z.eqb_neq by (unfold ch_space, ch_tab, EOF in *; lia).
      rewrite Hne, Hw. cbn [negb orb].
      destruct (skip_loop_blanks ws (ch_slash :: b :: rest) (w :: consumed (fp l)) w 0 Hws Hns)
        as (prev' & pass' & -> & Hp').
      rewrite skip_loop_slash by done.
      rewrite skip_loop_after_slash by done.
      by rewrite reverse_cons, <- app_assoc. }
  by rewrite Hskip.
Qed.

(** C3: on the stream made of a slash and a space, [skip_to_token] returns
    success with the cursor on the space, and [lex] runs into its check for
    a blank first character and fails with the internal error. *)
Theorem C3_blank_after_slash_reaches_lex (TOKEN_LENGTH : Z) (arr : list Token) (t0 : Token) :
  skip_to_token (mkLexer (mkFILE [] [ch_slash; ch_space]) arr 0)
  = (0, mkLexer (mkFILE [ch_slash] [ch_space]) arr 0)
  ∧ InternalInvariantViolation
      (lex TOKEN_LENGTH (mkLexer (mkFILE [] [ch_slash; ch_space]) arr 0) t0).
Proof. split; [reflexivity | split; reflexivity]. Qed.

(** C1: on a stream that opens a string literal, closed or not, [lex] reads
    the quote character alone and returns success: nothing is scanned up
    to a closing quote, no error is raised when the stream ends first, and
    neither the length nor the kind of the caller's token is set. *)
Theorem C1_quoted_literal_not_scanned (TOKEN_LENGTH : Z) (arr : list Token) (t0 : Token) :
  lex TOKEN_LENGTH (mkLexer (mkFILE [] (ch_dquote :: c_str "ab")) arr 0) t0
  = mkOutcome 0 []
      (mkLexer (mkFILE [ch_dquote] (c_str "ab")) arr 0)
      (mkToken (<[ 0%nat := ch_dquote ]> (replicate (Z.to_nat TOKEN_LENGTH) 0))
         (tok_length t0) (tok_type t0))
  ∧ lex TOKEN_LENGTH (mkLexer (mkFILE [] (ch_dquote :: c_str "ab" ++ [ch_dquote])) arr 0) t0
    = mkOutcome 0 []
        (mkLexer (mkFILE [ch_dquote] (c_str "ab" ++ [ch_dquote])) arr 0)
        (mkToken (<[ 0%nat := ch_dquote ]> (replicate (Z.to_nat TOKEN_LENGTH) 0))
           (tok_length t0) (tok_type t0)).
Proof. split; reflexivity. Qed.

(** ** The token reader *)

Lemma replicate_split (n k : nat) (x : Z) :
  (k <= n)%nat → replicate n x = replicate k x ++ replicate (n - k) x.
Proof. intros H. rewrite <- replicate_add. f_equal. lia. Qed.

Lemma eof_token_view TOKEN_LENGTH :
  14 <= TOKEN_LENGTH →
  token_view (eof_token TOKEN_LENGTH) = (c_str "[end of file]", 13, TT_EOF).
Proof.
  intros H. unfold token_view, token_text, eof_token. cbn [contents tok_length tok_type].
  rewrite (replicate_split (Z.to_nat TOKEN_LENGTH) 14) by lia.
  reflexivity.
Qed.

Lemma newline_token_view TOKEN_LENGTH :
  10 <= TOKEN_LENGTH →
  token_view (newline_token TOKEN_LENGTH) = (c_str "[newline]", 9, TT_NEWLINE).
Proof.
  intros H. unfold token_view, token_text, newline_token. cbn [contents tok_length tok_type].
  rewrite (replicate_split (Z.to_nat TOKEN_LENGTH) 10) by lia.
  reflexivity.
Qed.

(** With nothing pushed back, [lex] reads from where [skip_to_token] stops;
    at the end of the stream it builds the end-of-file token. *)
Lemma lex_at_eof TOKEN_LENGTH l t r l1 :
  unlexed_count l <= 0 →
  skip_to_token l = (r, l1) →
  pending (fp l1) = [] →
  lex TOKEN_LENGTH l t = mkOutcome 0 [] l1 (eof_token TOKEN_LENGTH).
Proof.
  intros Hc Hskip Hp. unfold lex.
  destruct (Z.gtb_spec (unlexed_count l) 0); [lia|].
  rewrite Hskip. unfold getc. rewrite Hp. cbn. by rewrite set_fp_same.
Qed.

Lemma lex_at_newline TOKEN_LENGTH l t r l1 rest :
  unlexed_count l <= 0 →
  skip_to_token l = (r, l1) →
  pending (fp l1) = ch_nl :: rest →
  lex TOKEN_LENGTH l t
  = mkOutcome 0 [] (set_fp l1 (mkFILE (ch_nl :: consumed (fp l1)) rest))
      (newline_token TOKEN_LENGTH).
Proof.
  intros Hc Hskip Hp. unfold lex.
  destruct (Z.gtb_spec (unlexed_count l) 0); [lia|].
  rewrite Hskip. unfold getc. rewrite Hp. reflexivity.
Qed.

(** C6: on an exhausted stream (and with nothing pushed back) [lex] returns
    success with the token whose text is "[end of file]", whose length is
    the length of that text and whose kind is [TT_EOF]; the lexer is left
    as it was, so every further call returns the same token. *)
Theorem C6_end_of_input_idempotent (TOKEN_LENGTH : Z) (l : Lexer) (t : Token) :
  14 <= TOKEN_LENGTH →
  unlexed_count l <= 0 →
  pending (fp l) = [] →
  lex TOKEN_LENGTH l t = mkOutcome 0 [] l (eof_token TOKEN_LENGTH)
  ∧ token_text (eof_token TOKEN_LENGTH) = c_str "[end of file]"
  ∧ tok_length (eof_token TOKEN_LENGTH) = strlen (c_str "[end of file]")
  ∧ tok_type (eof_token TOKEN_LENGTH) = TT_EOF
  ∧ ∀ k, lex_many TOKEN_LENGTH k l t
         = replicate k (mkOutcome 0 [] l (eof_token TOKEN_LENGTH)).
Proof.
  intros Hlen Hc Hp.
  assert (∀ t', lex TOKEN_LENGTH l t' = mkOutcome 0 [] l (eof_token TOKEN_LENGTH)) as Hlex.
  { intros t'. eapply lex_at_eof; [done | by apply skip_to_token_exhausted | done]. }
  pose proof (eof_token_view TOKEN_LENGTH Hlen) as Hview.
  unfold token_view in Hview. injection Hview as Htext.
  split_and!; try done.
  intros k. revert t. induction k as [|k IH]; intros t; [done|].
  cbn [lex_many replicate]. rewrite Hlex. cbn [lx tok]. by rewrite IH.
Qed.

(** Once the run of identifier characters reaches the end of the buffer
    with one more such character to store, the loop of [lex] gives up. *)
Lemma id_loop_too_long TOKEN_LENGTH w : ∀ rest consumed buf pos,
  Forall (λ b, is_valid_numeric_or_id_char b = true) w →
  pos <= TOKEN_LENGTH - 1 →
  TOKEN_LENGTH - 1 < pos + Z.of_nat (length w) →
  ∃ f buf', id_loop TOKEN_LENGTH (w ++ rest) consumed buf pos = IdTooLong f buf'.
Proof.
  induction w as [|c w IH]; intros rest consumed buf pos Hw Hpos Hlong.
  - cbn in Hlong. lia.
  - apply Forall_cons in Hw as [Hc Hw]. cbn [app id_loop length] in *.
    rewrite (valid_char_to_char c Hc), Hc. cbn [negb].
    destruct (Z.geb_spec pos (TOKEN_LENGTH - 1)); [by eauto|].
    apply IH; [done | lia | lia].
Qed.

(** C7: a run of identifier characters (alphanumeric, [_], [.]) longer than
    [MAX_TOKEN_LEN], read from the stream, makes [lex] fail with the
    identifier-too-long report: the call returns -1, not a token cut to
    size, and sets neither the length nor the kind of the caller's token. *)
Theorem C7_identifier_too_long (TOKEN_LENGTH : Z) (l : Lexer) (w rest : list Z) (t : Token) :
  2 <= TOKEN_LENGTH →
  unlexed_count l <= 0 →
  pending (fp l) = w ++ rest →
  Forall (λ b, is_valid_numeric_or_id_char b = true) w →
  MAX_TOKEN_LEN TOKEN_LENGTH < Z.of_nat (length w) →
  IdentifierTooLong (lex TOKEN_LENGTH l t)
  ∧ tok_length (tok (lex TOKEN_LENGTH l t)) = tok_length t
  ∧ tok_type (tok (lex TOKEN_LENGTH l t)) = tok_type t.
Proof.
  unfold MAX_TOKEN_LEN. intros Hlen Hc Hp Hw Hlong.
  destruct w as [|c w]; [cbn in Hlong; lia|].
  apply Forall_cons in Hw as [Hvc Hw].
  pose proof (valid_char_range c Hvc) as Hrange.
  pose proof (valid_char_to_char c Hvc) as Hchar.
  unfold lex. destruct (Z.gtb_spec (unlexed_count l) 0); [lia|].
  rewrite (skip_to_token_immediate l c (w ++ rest)); cycle 1.
  { done. }
  { rewrite Hchar. unfold EOF. lia. }
  { rewrite Hchar. unfold is_blank, ch_space, ch_tab.
    apply orb_false_iff. split; apply Z.eqb_neq; lia. }
  { rewrite Hchar. by apply valid_char_not_slash. }
  unfold getc. rewrite Hp. cbn [app].
  assert ((c =? EOF) = false) as -> by (apply Z.eqb_neq; unfold EOF; lia).
  assert ((c =? ch_space) = false) as -> by (apply Z.eqb_neq; unfold ch_space; lia).
  assert ((c =? ch_tab) = false) as -> by (apply Z.eqb_neq; unfold ch_tab; lia).
  assert ((c =? ch_nl) = false) as -> by (apply Z.eqb_neq; unfold ch_nl; lia).
  cbn [orb]. rewrite Hchar, (valid_char_not_single c Hvc), Hvc.
  cbn [fp set_fp pending consumed contents].
  edestruct (id_loop_too_long TOKEN_LENGTH w rest) as (f & buf' & ->);
    [done | | | by cbn].
  - lia.
  - cbn [length] in Hlong. lia.
Qed.

Lemma cstr_text w tail :
  Forall (λ b, is_valid_numeric_or_id_char b = true) w →
  cstr (w ++ 0 :: tail) = w.
Proof.
  induction 1 as [|c w Hc _ IH]; [done|].
  apply valid_char_range in Hc. cbn.
  destruct (Z.eqb_spec c 0); [lia|]. by rewrite IH.
Qed.

(** A run that fits: the loop stores it after what the buffer holds and
    stops at the terminator, which is the character it hands to [ungetc]. *)
Lemma id_loop_run TOKEN_LENGTH w : ∀ rest consumed pre k,
  Forall (λ b, is_valid_numeric_or_id_char b = true) w →
  terminated rest →
  Z.of_nat (length pre + length w) <= TOKEN_LENGTH - 1 →
  (length w < k)%nat →
  ∃ c f,
    id_loop TOKEN_LENGTH (w ++ rest) consumed (pre ++ replicate k 0)
      (Z.of_nat (length pre))
    = IdBreak c f (pre ++ w ++ replicate (k - length w) 0)
        (Z.of_nat (length pre + length w))
    ∧ ungetc c f = mkFILE (reverse w ++ consumed) rest.
Proof.
  induction w as [|c w IH]; intros rest consumed pre k Hw Hterm Hfit Hroom.
  - cbn [app length]. rewrite Nat.add_0_r, Nat.sub_0_r.
    destruct rest as [|b rest]; cbn [id_loop].
    + by exists EOF, (mkFILE consumed []).
    + destruct Hterm as [-> Hb]. cbn [negb].
      exists b, (mkFILE (b :: consumed) rest). split; [done|].
      unfold ungetc. destruct (Z.eqb_spec b EOF); [unfold EOF in *; lia|].
      cbn. by rewrite Z.mod_small.
  - apply Forall_cons in Hw as [Hc Hw]. cbn [app length id_loop] in *.
    rewrite (valid_char_to_char c Hc), Hc. cbn [negb].
    destruct (Z.geb_spec (Z.of_nat (length pre)) (TOKEN_LENGTH - 1)); [lia|].
    destruct k as [|k]; [lia|].
    rewrite Nat2Z.id. cbn [replicate].
    rewrite insert_app_r_alt, Nat.sub_diag by lia. cbn [insert list_insert].
    replace (Z.of_nat (length pre) + 1) with (Z.of_nat (length (pre ++ [c])))
      by (rewrite length_app; cbn; lia).
    replace (pre ++ c :: replicate k 0) with ((pre ++ [c]) ++ replicate k 0)
      by (by rewrite <- app_assoc).
    destruct (IH rest (c :: consumed) (pre ++ [c]) k) as (c' & f & -> & Hunget);
      [done | done | rewrite length_app; cbn; lia | lia |].
    exists c', f. split.
    + rewrite length_app, <- app_assoc. cbn. do 2 f_equal. lia.
    + rewrite Hunget, reverse_cons, <- app_assoc. done.
Qed.

(** The token reader on an identifier or a number: a run of identifier
    characters that fits in the buffer is read whole, its terminator is
    left in the stream, and the classifier names its kind. *)
Lemma lex_word TOKEN_LENGTH l w rest t :
  unlexed_count l <= 0 →
  pending (fp l) = w ++ rest →
  w ≠ [] →
  Forall (λ b, is_valid_numeric_or_id_char b = true) w →
  terminated rest →
  Z.of_nat (length w) <= MAX_TOKEN_LEN TOKEN_LENGTH →
  lex TOKEN_LENGTH l t
  = mkOutcome 0 []
      (set_fp l (mkFILE (reverse w ++ consumed (fp l)) rest))
      (mkToken (w ++ replicate (Z.to_nat TOKEN_LENGTH - length w) 0)
         (Z.of_nat (length w)) (ttype_many_chars (Some w))).
Proof.
  unfold MAX_TOKEN_LEN. intros Hc Hp Hne Hw Hterm Hfit.
  destruct w as [|c w]; [done|]. clear Hne.
  pose proof Hw as Hall.
  apply Forall_cons in Hw as [Hvc Hw].
  pose proof (valid_char_range c Hvc) as Hrange.
  pose proof (valid_char_to_char c Hvc) as Hchar.
  cbn [length] in Hfit.
  unfold lex. destruct (Z.gtb_spec (unlexed_count l) 0); [lia|].
  rewrite (skip_to_token_immediate l c (w ++ rest)); cycle 1.
  { done. }
  { rewrite Hchar. unfold EOF. lia. }
  { rewrite Hchar. unfold is_blank, ch_space, ch_tab.
    apply orb_false_iff. split; apply Z.eqb_neq; lia. }
  { rewrite Hchar. by apply valid_char_not_slash. }
  unfold getc. rewrite Hp. cbn [app].
  assert ((c =? EOF) = false) as -> by (apply Z.eqb_neq; unfold EOF; lia).
  assert ((c =? ch_space) = false) as -> by (apply Z.eqb_neq; unfold ch_space; lia).
  assert ((c =? ch_tab) = false) as -> by (apply Z.eqb_neq; unfold ch_tab; lia).
  assert ((c =? ch_nl) = false) as -> by (apply Z.eqb_neq; unfold ch_nl; lia).
  cbn [orb]. rewrite Hchar, (valid_char_not_single c Hvc), Hvc.
  cbn [fp set_fp pending consumed contents unlexed unlexed_count].
  destruct (Z.to_nat TOKEN_LENGTH) as [|n] eqn:Hn; [lia|].
  cbn [replicate].
  change (<[ Z.to_nat 0 := c ]> (0 :: replicate n 0)) with (c :: replicate n 0).
  destruct (id_loop_run TOKEN_LENGTH w rest (c :: consumed (fp l)) [c] n)
    as (c' & f & Hloop & Hunget); [done | done | cbn [length]; lia | lia |].
  cbn [app length] in Hloop. change (Z.of_nat 1) with (0 + 1) in Hloop.
  rewrite Hloop, Hunget. change (1 + length w)%nat with (S (length w)).
  assert (<[ Z.to_nat (Z.of_nat (S (length w))) := 0 ]>
            (c :: w ++ replicate (n - length w) 0)
          = c :: w ++ replicate (n - length w) 0) as ->.
  { rewrite Nat2Z.id. apply list_insert_id.
    change (c :: w ++ ?x) with ((c :: w) ++ x).
    rewrite lookup_app_r by (cbn; lia).
    cbn [length]. rewrite Nat.sub_diag.
    destruct (n - length w)%nat eqn:E; [lia|]. done. }
  assert (cstr (c :: w ++ replicate (n - length w) 0) = c :: w) as ->.
  { destruct (n - length w)%nat eqn:E; [lia|]. cbn [replicate].
    by apply (cstr_text (c :: w)). }
  rewrite reverse_cons, <- app_assoc. cbn [app length Nat.sub].
  do 2 f_equal.
Qed.

(** C5: the input [a//c], newline, [b] is read as the identifier "a", a
    newline token, the identifier "b" and then the end of the input: the
    newline that closes the line comment is left in the stream by
    [skip_to_token] and comes back as a token of its own. *)
Theorem C5_line_comment_newline_is_a_token (TOKEN_LENGTH : Z) (arr : list Token) (t0 : Token) :
  14 <= TOKEN_LENGTH →
  ret <$> lex_many TOKEN_LENGTH 4
            (mkLexer (mkFILE [] (c_str "a//c" ++ ch_nl :: c_str "b")) arr 0) t0
  = [0; 0; 0; 0]
  ∧ token_view ∘ tok <$> lex_many TOKEN_LENGTH 4
            (mkLexer (mkFILE [] (c_str "a//c" ++ ch_nl :: c_str "b")) arr 0) t0
    = [(c_str "a", 1, TT_IDENTIFIER);
       (c_str "[newline]", 9, TT_NEWLINE);
       (c_str "b", 1, TT_IDENTIFIER);
       (c_str "[end of file]", 13, TT_EOF)]
  ∧ skip_to_token (mkLexer (mkFILE (c_str "a") (c_str "//c" ++ ch_nl :: c_str "b")) arr 0)
    = (0, mkLexer (mkFILE (reverse (c_str "a//c")) (ch_nl :: c_str "b")) arr 0).
Proof.
  intros Hlen.
  assert (∀ w, (0 < length w)%nat → (length w < 14)%nat →
           cstr (w ++ replicate (Z.to_nat TOKEN_LENGTH - length w) 0) = cstr (w ++ [0]))
    as Htext.
  { intros w H0 H14. destruct (Z.to_nat TOKEN_LENGTH - length w)%nat eqn:E; [lia|].
    cbn [replicate]. clear. induction w as [|c w IH]; [done|].
    cbn. by rewrite IH. }
  cbn [lex_many].
  rewrite (lex_word TOKEN_LENGTH _ (c_str "a") (c_str "//c" ++ ch_nl :: c_str "b"));
    [ | cbn; lia | reflexivity | done | run_of_chars
      | split; [reflexivity | split; by vm_compute] | unfold MAX_TOKEN_LEN; simpl length; lia ].
  cbn [lx tok].
  erewrite (lex_at_newline TOKEN_LENGTH _ _ 0 _ (c_str "b"));
    [ | cbn; lia | reflexivity | reflexivity ].
  cbn [lx tok].
  rewrite (lex_word TOKEN_LENGTH _ (c_str "b") []);
    [ | cbn; lia | reflexivity | done | run_of_chars
      | done | unfold MAX_TOKEN_LEN; simpl length; lia ].
  cbn [lx tok].
  erewrite (lex_at_eof TOKEN_LENGTH _ _ (-1)); [ | cbn; lia | reflexivity | reflexivity ].
  split; [reflexivity|]. split; [|reflexivity].
  cbn [fmap list_fmap compose tok].
  rewrite eof_token_view, newline_token_view by lia.
  unfold token_view, token_text. cbn [contents tok_length tok_type].
  rewrite !Htext by (cbn; lia). reflexivity.
Qed.

(** The bound on the length of a run is tight: a run of exactly
    [MAX_TOKEN_LEN] characters is a token. *)
Lemma lex_word_of_max_length TOKEN_LENGTH l w rest t :
  unlexed_count l <= 0 →
  pending (fp l) = w ++ rest →
  w ≠ [] →
  Forall (λ b, is_valid_numeric_or_id_char b = true) w →
  terminated rest →
  Z.of_nat (length w) = MAX_TOKEN_LEN TOKEN_LENGTH →
  ret (lex TOKEN_LENGTH l t) = 0 ∧ token_text (tok (lex TOKEN_LENGTH l t)) = w.
Proof.
  intros Hc Hp Hne Hw Hterm Hlen.
  rewrite (lex_word TOKEN_LENGTH l w rest) by (done || lia).
  split; [done|]. unfold token_text. cbn [tok contents].
  unfold MAX_TOKEN_LEN in Hlen.
  replace (Z.to_nat TOKEN_LENGTH - length w)%nat with 1%nat by lia.
  by apply cstr_text.
Qed.

(** The block comment of the specification's test list, and a division
    sign between two names. *)
Example lex_block_comment :
  token_view ∘ tok <$> lex_many 256 2 (mkLexer (mkFILE [] (c_str "/* x */y")) [] 0)
                         (mkToken [] 0 TT_NO_TOKEN)
  = [(c_str "y", 1, TT_IDENTIFIER); (c_str "[end of file]", 13, TT_EOF)].
Proof. vm_compute. reflexivity. Qed.

Example lex_division :
  token_view ∘ tok <$> lex_many 256 3 (mkLexer (mkFILE [] (c_str "a/b")) [] 0)
                         (mkToken [] 0 TT_NO_TOKEN)
  = [(c_str "a", 1, TT_IDENTIFIER); (c_str "b", 1, TT_IDENTIFIER);
     (c_str "[end of file]", 13, TT_EOF)].
Proof. vm_compute. reflexivity. Qed.

(** ** The theorems at given inputs *)

Lemma C9_witness :
  (ch_dot ∉ c_str "12u") ∧ (ch_squote ∉ c_str "12u") ∧ (ch_dquote ∉ c_str "12u")
  ∧ (ttype_many_chars (Some (c_str "12u")) = TT_LITERAL
     ↔ Forall is_digit (c_str "12u")
       ∨ ∃ ds, Forall is_digit ds ∧ c_str "12u" = ds ++ [ch_u]).
Proof.
  assert (ch_dot ∉ c_str "12u") as H1 by not_in_text.
  assert (ch_squote ∉ c_str "12u") as H2 by not_in_text.
  assert (ch_dquote ∉ c_str "12u") as H3 by not_in_text.
  split; [exact H1|]. split; [exact H2|]. split; [exact H3|].
  exact (proj1 (C9_literal_iff_digits_or_trailing_u (c_str "12u") H1 H2 H3)).
Defined.

Lemma C2_witness :
  unlexed_array 2 (mkLexer (mkFILE [] (c_str "x")) [eof_token 16; eof_token 16] 0)
  ∧ 0 <= 0
  ∧ 0 + 2 <= 2
  ∧ tok <$> lex_many 16 2
              (unlex_all 2 (mkLexer (mkFILE [] (c_str "x")) [eof_token 16; eof_token 16] 0)
                 [newline_token 16; mkToken (c_str "b") 1 TT_IDENTIFIER]).2
              (eof_token 16)
    = [mkToken (c_str "b") 1 TT_IDENTIFIER; newline_token 16].
Proof.
  assert (unlexed_array 2 (mkLexer (mkFILE [] (c_str "x")) [eof_token 16; eof_token 16] 0))
    as H1 by reflexivity.
  assert (0 <= 0) as H2 by lia.
  assert (0 + 2 <= 2) as H3 by lia.
  split; [exact H1|]. split; [exact H2|]. split; [exact H3|].
  exact (proj1 (proj2 (proj2
    (proj2 (C2_unlex_then_lex_round_trip 16 2 _ (eof_token 16) H1 H2)
       [newline_token 16; mkToken (c_str "b") 1 TT_IDENTIFIER] H3)))).
Defined.

Lemma C8_witness :
  pushback_inv 2 (mkLexer (mkFILE [] []) [eof_token 16; newline_token 16] 2)
  ∧ PushbackBufferFull
      (unlex 2 (mkLexer (mkFILE [] []) [eof_token 16; newline_token 16] 2) (eof_token 16))
  ∧ pushback_inv 2
      (lx (lex 16 (mkLexer (mkFILE [] []) [eof_token 16; newline_token 16] 2) (eof_token 16))).
Proof.
  assert (pushback_inv 2 (mkLexer (mkFILE [] []) [eof_token 16; newline_token 16] 2)) as H1.
  { unfold pushback_inv. cbn. lia. }
  pose proof (C8_unlex_bounded 16 2 _ (eof_token 16) (eof_token 16) H1) as H.
  split; [exact H1|]. split.
  - exact (proj1 (proj1 H eq_refl)).
  - exact (proj2 (proj2 (proj2 H))).
Defined.

Lemma C4_witness :
  Forall (λ c, is_blank c = true) [ch_space]
  ∧ skip_to_token (mkLexer (mkFILE [] (c_str " /x")) [] 0)
    = (0, mkLexer (mkFILE [ch_slash; ch_space] (c_str "x")) [] 0).
Proof.
  assert (Forall (λ c, is_blank c = true) [ch_space]) as H1 by run_of_chars.
  split; [exact H1|].
  refine (proj1 (C4_standalone_slash_discarded
                   (mkLexer (mkFILE [] (c_str " /x")) [] 0) [ch_space] 120 [] H1 eq_refl _ _ _));
    by vm_compute.
Defined.

Lemma C5_witness :
  14 <= 16
  ∧ token_view ∘ tok <$> lex_many 16 4
            (mkLexer (mkFILE [] (c_str "a//c" ++ ch_nl :: c_str "b")) [] 0)
            (mkToken [] 0 TT_NO_TOKEN)
    = [(c_str "a", 1, TT_IDENTIFIER);
       (c_str "[newline]", 9, TT_NEWLINE);
       (c_str "b", 1, TT_IDENTIFIER);
       (c_str "[end of file]", 13, TT_EOF)].
Proof.
  assert (14 <= 16) as H1 by lia.
  split; [exact H1|].
  exact (proj1 (proj2
    (C5_line_comment_newline_is_a_token 16 [] (mkToken [] 0 TT_NO_TOKEN) H1))).
Defined.

Lemma C6_witness :
  14 <= 16
  ∧ unlexed_count (mkLexer (mkFILE (c_str "a") []) [] 0) <= 0
  ∧ lex_many 16 3 (mkLexer (mkFILE (c_str "a") []) [] 0) (mkToken [] 0 TT_NO_TOKEN)
    = replicate 3 (mkOutcome 0 [] (mkLexer (mkFILE (c_str "a") []) [] 0) (eof_token 16)).
Proof.
  assert (14 <= 16) as H1 by lia.
  assert (unlexed_count (mkLexer (mkFILE (c_str "a") []) [] 0) <= 0) as H2 by (cbn; lia).
  split; [exact H1|]. split; [exact H2|].
  exact (proj2 (proj2 (proj2 (proj2
    (C6_end_of_input_idempotent 16 _ (mkToken [] 0 TT_NO_TOKEN) H1 H2 eq_refl)))) 3%nat).
Defined.

Lemma C7_witness :
  2 <= 4
  ∧ MAX_TOKEN_LEN 4 < Z.of_nat (length (c_str "abcd"))
  ∧ IdentifierTooLong
      (lex 4 (mkLexer (mkFILE [] (c_str "abcd;")) [] 0) (mkToken [] 0 TT_NO_TOKEN)).
Proof.
  assert (2 <= 4) as H1 by lia.
  assert (MAX_TOKEN_LEN 4 < Z.of_nat (length (c_str "abcd"))) as H2 by (by vm_compute).
  assert (Forall (λ b, is_valid_numeric_or_id_char b = true) (c_str "abcd")) as H3
    by run_of_chars.
  assert (unlexed_count (mkLexer (mkFILE [] (c_str "abcd;")) [] 0) <= 0) as H4 by (cbn; lia).
  split; [exact H1|]. split; [exact H2|].
  exact (proj1 (C7_identifier_too_long 4 _ (c_str "abcd") (c_str ";")
                  (mkToken [] 0 TT_NO_TOKEN) H1 H4 eq_refl H3 H2)).
Defined.

(** * Further properties *)

(** ** The classifier *)

(** [in_string] answers whether the character occurs in the text. *)
Theorem in_string_elem_of (c : Z) (s : list Z) : in_string c s = true ↔ c ∈ s.
Proof.
  induction s as [|d s IH]; cbn [in_string].
  - split; [done | by intros ?%elem_of_nil].
  - rewrite elem_of_cons. destruct (Z.eqb_spec d c) as [->|Hne].
    + split; [by left | done].
    + rewrite IH. split; [by right | by intros [?|?]].
Qed.

Lemma ttype_one_char_table (c : Z) :
  (in_string c single_char_tokens = true ↔ ttype_one_char c ≠ TT_NO_TOKEN)
  ∧ (is_punct_kind (ttype_one_char c) ∨ ttype_one_char c = TT_NO_TOKEN).
Proof.
  unfold single_char_tokens, ttype_one_char, is_punct_kind. cbn [in_string].
  rewrite !(Z.eqb_sym _ c).
  repeat match goal with
         | |- context [c =? ?a] => destruct (Z.eqb_spec c a); [subst; cbn; by intuition|]
         end.
  by intuition.
Qed.

(** The table [single_char_tokens] and the switch of [ttype_one_char] agree:
    a character is in the table exactly when the switch has a kind for it,
    and that kind is one of the seven punctuation kinds. *)
Theorem single_char_tokens_have_a_kind (c : Z) :
  (in_string c single_char_tokens = true ↔ ttype_one_char c ≠ TT_NO_TOKEN)
  ∧ (is_punct_kind (ttype_one_char c) ∨ ttype_one_char c = TT_NO_TOKEN).
Proof. apply ttype_one_char_table. Qed.

Lemma ttype_many_loop_inl s : ∀ a f u k,
  ttype_many_loop s a f u = inl k → k = TT_LITERAL.
Proof.
  induction s as [|c s IH]; intros a f u k; cbn [ttype_many_loop]; [done|].
  destruct (c =? ch_dot); [congruence|].
  destruct ((c =? ch_squote) || (c =? ch_dquote)); [congruence|].
  apply IH.
Qed.

Lemma ttype_many_loop_marked s : ∀ a f u,
  ch_dot ∈ s ∨ ch_squote ∈ s ∨ ch_dquote ∈ s →
  ttype_many_loop s a f u = inl TT_LITERAL.
Proof.
  induction s as [|c s IH]; intros a f u Hin.
  - rewrite !elem_of_nil in Hin. tauto.
  - cbn [ttype_many_loop]. rewrite !elem_of_cons in Hin.
    destruct (Z.eqb_spec c ch_dot); [done|].
    destruct (Z.eqb_spec c ch_squote); [done|].
    destruct (Z.eqb_spec c ch_dquote); [done|].
    cbn [orb]. apply IH. intuition congruence.
Qed.

(** A text with a period or a quote character anywhere in it is a
    literal, whatever else it holds. *)
Theorem ttype_many_chars_period_or_quote (s : list Z) :
  ch_dot ∈ s ∨ ch_squote ∈ s ∨ ch_dquote ∈ s →
  ttype_many_chars (Some s) = TT_LITERAL.
Proof.
  intros Hin. unfold ttype_many_chars.
  by rewrite (ttype_many_loop_marked s true 0 0 Hin).
Qed.

Lemma ttype_many_chars_word s : is_word_kind (ttype_many_chars (Some s)).
Proof.
  unfold ttype_many_chars, is_word_kind.
  destruct (ttype_many_loop s true 0 0) as [k|[[a f] u]] eqn:E.
  - left. by eapply ttype_many_loop_inl.
  - destruct a; [|by right].
    destruct (_ && _); [by left|].
    destruct (_ =? _); [by left | by right].
Qed.

(** [ttype_many_chars] knows two kinds only: a text is a literal or an
    identifier, and the sentinel is kept for the NULL pointer. *)
Theorem ttype_many_chars_kinds (contents : option (list Z)) :
  match contents with
  | None => ttype_many_chars contents = TT_NO_TOKEN
  | Some s => is_word_kind (ttype_many_chars contents)
  end.
Proof. destruct contents as [s|]; [apply ttype_many_chars_word | done]. Qed.

(** [ttype_from_string] gives a one-character text of the punctuation table
    the kind that [ttype_one_char] has for it. *)
Theorem ttype_from_string_punct (c : Z) :
  in_string c single_char_tokens = true →
  ttype_from_string [c] = ttype_one_char c ∧ is_punct_kind (ttype_one_char c).
Proof.
  intros Hin.
  destruct (ttype_one_char_table c) as [Hiff Hk].
  apply Hiff in Hin. destruct Hk as [Hk|Hk]; [|done].
  split; [|done]. unfold ttype_from_string.
  change (default 0 ([c] !! 0%nat)) with c.
  by destruct (ttype_one_char c).
Qed.

(** Every other text goes to [ttype_many_chars]: a text of another length,
    and a single character that is not in the punctuation table. *)
Theorem ttype_from_string_fallback (s : list Z) :
  (∀ c, s = [c] → in_string c single_char_tokens = false) →
  ttype_from_string s = ttype_many_chars (Some s).
Proof.
  intros Hno. unfold ttype_from_string, strlen.
  destruct s as [|c [|c' s]]; [done| |].
  - specialize (Hno c eq_refl).
    destruct (ttype_one_char_table c) as [Hiff _].
    change (default 0 ([c] !! 0%nat)) with c.
    destruct (ttype_one_char c) eqn:E; try done; exfalso;
      (assert (in_string c single_char_tokens = true) by (by apply Hiff); congruence).
  - destruct (Z.eqb_spec (Z.of_nat (length (c :: c' :: s))) 1) as [E|E]; [|done].
    cbn [length] in E. lia.
Qed.

(** [ttype_from_string] never answers with the sentinel, the end of file
    or the newline kind: a text is punctuation, a literal or an
    identifier. *)
Theorem ttype_from_string_never_sentinel (s : list Z) :
  is_punct_kind (ttype_from_string s) ∨ is_word_kind (ttype_from_string s).
Proof.
  unfold ttype_from_string.
  destruct (_ && _) eqn:E.
  - apply andb_true_iff in E as [_ E].
    destruct (ttype_one_char_table (default 0 (s !! 0%nat))) as [_ [Hk|Hk]];
      [by left|]. rewrite Hk in E. done.
  - right. apply ttype_many_chars_word.
Qed.

(** ** The skip-scanner *)

Lemma to_char_byte_eq b c :
  is_byte b → 0 <= c < 128 → to_char b = c ↔ b = c.
Proof.
  unfold is_byte, to_char. intros Hb Hc.
  Z.to_euclidean_division_equations. lia.
Qed.

(** One turn of the loop of [skip_to_token]: it stops at a byte 0xFF, or
    steps back over the character it has read and returns, or reads on. *)
Lemma skip_loop_step b rest consumed prev in_block pass :
  (to_char b = EOF
   ∧ skip_loop (b :: rest) consumed prev in_block pass = (-1, mkFILE (b :: consumed) rest))
  ∨ (to_char b ≠ EOF ∧ to_char b ≠ ch_slash
     ∧ skip_loop (b :: rest) consumed prev in_block pass = (0, mkFILE consumed (b :: rest)))
  ∨ (to_char b ≠ EOF
     ∧ ∃ prev' in_block' pass',
         skip_loop (b :: rest) consumed prev in_block pass
         = skip_loop rest (b :: consumed) prev' in_block' pass').
Proof.
  cbn [skip_loop].
  destruct (Z.eqb_spec (to_char b) EOF) as [He|He]; [by left|]. right.
  destruct (Z.eqb_spec (to_char b) ch_slash) as [Hs|Hs].
  - right. split; [done|]. rewrite Hs.
    change (ch_slash =? ch_star) with false. change (ch_slash =? ch_nl) with false.
    change (is_blank ch_slash) with false.
    destruct (prev =? ch_slash), (in_block =? 0), (in_block =? 1), (in_block =? 2),
      (prev =? ch_star), (pass <=? 0); cbn; by eexists _, _, _.
  - destruct (prev =? ch_slash), (in_block =? 0), (to_char b =? ch_star),
      (in_block =? 1), (to_char b =? ch_nl), (in_block =? 2),
      (prev =? ch_star), (pass <=? 0), (is_blank (to_char b)); cbn;
      try (destruct (in_block =? 0); cbn);
      first [ by left | right; split; [done|]; by eexists _, _, _ ].
Qed.


(** Where the loop of [skip_to_token] leaves the cursor, and what it has
    found there. *)
Lemma skip_loop_result p : ∀ c prev in_block pass,
  ∃ k, (k <= length p)%nat
    ∧ (skip_loop p c prev in_block pass).2 = mkFILE (reverse (take k p) ++ c) (drop k p)
    ∧ (((skip_loop p c prev in_block pass).1 = 0
        ∧ ∃ b rest, drop k p = b :: rest ∧ to_char b ≠ EOF ∧ to_char b ≠ ch_slash)
       ∨ ((skip_loop p c prev in_block pass).1 = -1
          ∧ (drop k p = []
             ∨ ∃ b, head (reverse (take k p) ++ c) = Some b ∧ to_char b = EOF))).
Proof.
  induction p as [|b p IH]; intros c prev in_block pass.
  - exists 0%nat. cbn. split; [lia|]. split; [done|]. right. by split; [|left].
  - destruct (skip_loop_step b p c prev in_block pass)
      as [[He ->] | [(He & Hs & ->) | (He & prev' & ib' & pass' & ->)]].
    + exists 1%nat. cbn. split; [lia|]. split; [done|]. right. split; [done|].
      right. by exists b.
    + exists 0%nat. cbn. split; [lia|]. split; [done|]. left. split; [done|].
      by exists b, p.
    + destruct (IH (b :: c) prev' ib' pass') as (k & Hk & Hf & Hr).
      exists (S k). cbn [length take drop]. split; [lia|].
      rewrite reverse_cons, <- app_assoc. cbn [app]. done.
Qed.

Lemma skip_to_token_result l :
  ∃ k, (k <= length (pending (fp l)))%nat
    ∧ (skip_to_token l).2 = set_fp l (cursor_at (fp l) k)
    ∧ (((skip_to_token l).1 = 0
        ∧ ∃ b rest, drop k (pending (fp l)) = b :: rest
                    ∧ to_char b ≠ EOF ∧ to_char b ≠ ch_slash)
       ∨ ((skip_to_token l).1 = -1
          ∧ (drop k (pending (fp l)) = []
             ∨ ∃ b, head (consumed (cursor_at (fp l) k)) = Some b ∧ to_char b = EOF))).
Proof.
  unfold skip_to_token, fgetc, getc, cursor_at.
  destruct (pending (fp l)) as [|b p] eqn:Hp.
  - exists 0%nat. cbn. split; [lia|]. split.
    + destruct l as [[c q] u n]. cbn in *. by subst.
    + right. by split; [|left].
  - destruct (Z.eqb_spec (to_char b) EOF) as [He|He]; cbn [negb].
    + exists 1%nat. cbn. split; [lia|]. split; [done|]. right. split; [done|].
      right. by exists b.
    + destruct (negb _) eqn:Hstart.
      * exists 0%nat. cbn. split; [lia|]. split; [done|]. left. split; [done|].
        exists b, p. split; [done|]. split; [done|].
        apply negb_true_iff, orb_false_iff in Hstart as [_ Hs]. by apply Z.eqb_neq.
      * cbn [pending consumed].
        destruct (skip_loop_result p (b :: consumed (fp l)) (to_char b) 0 0)
          as (k & Hk & Hf & Hr).
        destruct (skip_loop p _ _ _ _) as [r f]. cbn [fst snd] in *. subst f.
        exists (S k). cbn [length take drop]. split; [lia|].
        rewrite reverse_cons, <- app_assoc. cbn [app consumed]. done.
Qed.

(** Whatever the stream holds, [skip_to_token] only moves the cursor
    forward over its bytes and leaves the pushback buffer alone.  When it
    returns 0 a character is waiting that is neither a byte 0xFF nor a
    slash; when it returns -1 the stream is exhausted, or the byte it
    read last is 0xFF, which a [char] takes for the end of the file. *)
Theorem skip_to_token_contract (l : Lexer) :
  unlexed (skip_to_token l).2 = unlexed l
  ∧ unlexed_count (skip_to_token l).2 = unlexed_count l
  ∧ ∃ k, (k <= length (pending (fp l)))%nat
      ∧ fp (skip_to_token l).2 = cursor_at (fp l) k
      ∧ (((skip_to_token l).1 = 0
          ∧ ∃ b rest, pending (fp (skip_to_token l).2) = b :: rest
                      ∧ to_char b ≠ EOF ∧ to_char b ≠ ch_slash)
         ∨ ((skip_to_token l).1 = -1
            ∧ (pending (fp (skip_to_token l).2) = []
               ∨ ∃ b, head (consumed (fp (skip_to_token l).2)) = Some b
                      ∧ to_char b = EOF))).
Proof.
  destruct (skip_to_token_pushback l) as [Hu Hn].
  split; [done|]. split; [done|].
  destruct (skip_to_token_result l) as (k & Hk & -> & Hr).
  exists k. cbn [fp set_fp]. split; [done|]. split; [done|]. exact Hr.
Qed.

(** The start of a token in the Normal state, when the character before
    is not a slash. *)
Lemma skip_loop_token_start b rest consumed prev pass :
  prev ≠ ch_slash →
  to_char b ≠ EOF → is_blank (to_char b) = false → to_char b ≠ ch_slash →
  skip_loop (b :: rest) consumed prev 0 pass = (0, mkFILE consumed (b :: rest)).
Proof.
  intros Hp%Z.eqb_neq He%Z.eqb_neq Hb Hs%Z.eqb_neq. cbn [skip_loop].
  rewrite He, Hs, Hp, Hb. by destruct (to_char b =? ch_star).
Qed.

Lemma blank_char w :
  is_blank w = true → to_char w = w ∧ w ≠ ch_slash ∧ w ≠ EOF.
Proof.
  unfold is_blank, ch_space, ch_tab, ch_slash, EOF.
  rewrite orb_true_iff, !Z.eqb_eq. intros Hw.
  split; [apply to_char_ascii; lia | lia].
Qed.

Lemma skip_blanks_stop (l : Lexer) (ws : list Z) (b : Z) (rest : list Z) :
  Forall (λ c, is_blank c = true) ws →
  pending (fp l) = ws ++ b :: rest →
  to_char b ≠ EOF → is_blank (to_char b) = false → to_char b ≠ ch_slash →
  skip_to_token l = (0, set_fp l (mkFILE (reverse ws ++ consumed (fp l)) (b :: rest))).
Proof.
  intros Hws Hp He Hb Hs.
  destruct ws as [|w ws].
  - rewrite (skip_to_token_immediate l b rest) by done.
    cbn [reverse app] in *. rewrite <- Hp. by destruct l as [[c q] u n].
  - apply Forall_cons in Hws as [Hw Hws].
    destruct (blank_char w Hw) as (Hchar & Hns & Hne).
    unfold skip_to_token, fgetc, getc. rewrite Hp. cbn [app pending consumed].
    rewrite Hchar, Hw. apply Z.eqb_neq in Hne. rewrite Hne. cbn [negb orb].
    destruct (skip_loop_blanks ws (b :: rest) (w :: consumed (fp l)) w 0 Hws Hns)
      as (prev' & pass' & -> & Hp').
    rewrite skip_loop_token_start by done.
    by rewrite reverse_cons, <- app_assoc.
Qed.

(** Leading blanks are skipped: the cursor stops before the first
    character that is not a blank, when that character is neither a
    slash nor a byte 0xFF, and the call returns 0. *)
Theorem skip_to_token_skips_blanks (l : Lexer) (ws : list Z) (b : Z) (rest : list Z) :
  Forall (λ c, is_blank c = true) ws →
  pending (fp l) = ws ++ b :: rest →
  to_char b ≠ EOF → is_blank (to_char b) = false → to_char b ≠ ch_slash →
  skip_to_token l = (0, set_fp l (mkFILE (reverse ws ++ consumed (fp l)) (b :: rest))).
Proof. apply skip_blanks_stop. Qed.


(** ** Comments *)

(** After blanks and a slash the loop runs in the Normal state with the
    slash as [prev]. *)
Lemma skip_to_token_slash l ws more :
  Forall (λ c, is_blank c = true) ws →
  pending (fp l) = ws ++ ch_slash :: more →
  ∃ pass,
    skip_to_token l
    = ((skip_loop more (ch_slash :: reverse ws ++ consumed (fp l)) ch_slash 0 pass).1,
       set_fp l (skip_loop more (ch_slash :: reverse ws ++ consumed (fp l)) ch_slash 0 pass).2).
Proof.
  intros Hws Hp. unfold skip_to_token, fgetc, getc. rewrite Hp.
  destruct ws as [|w ws]; cbn [app pending consumed].
  - exists 0. change (to_char ch_slash) with ch_slash.
    replace (negb (ch_slash =? EOF)) with true by reflexivity.
    replace (negb (is_blank ch_slash || (ch_slash =? ch_slash))) with false by reflexivity.
    cbn [reverse app]. by destruct (skip_loop _ _ _ _ _).
  - apply Forall_cons in Hws as [Hw Hws].
    destruct (blank_char w Hw) as (Hchar & Hns & Hne).
    rewrite Hchar, Hw. apply Z.eqb_neq in Hne. rewrite Hne. cbn [negb orb].
    destruct (skip_loop_blanks ws (ch_slash :: more) (w :: consumed (fp l)) w 0 Hws Hns)
      as (prev' & pass' & -> & Hp').
    rewrite skip_loop_slash by done.
    exists (pass' - 1). rewrite reverse_cons, <- app_assoc. cbn [app].
    by destruct (skip_loop _ _ _ _ _).
Qed.


Lemma skip_loop_open_block more consumed pass :
  skip_loop (ch_star :: more) consumed ch_slash 0 pass
  = skip_loop more (ch_star :: consumed) ch_star 2 1.
Proof. reflexivity. Qed.



(** Inside a block comment a character is passed over unless it is the
    slash that closes the comment. *)
Lemma skip_loop_block_step b more consumed prev pass :
  to_char b ≠ EOF →
  (prev =? ch_star) && (to_char b =? ch_slash) && (pass <=? 0) = false →
  skip_loop (b :: more) consumed prev 2 pass
  = skip_loop more (b :: consumed) (to_char b) 2 (pass - 1).
Proof.
  intros He%Z.eqb_neq Hopen. cbn [skip_loop]. rewrite He.
  destruct (to_char b =? ch_slash), (prev =? ch_slash), (to_char b =? ch_star),
    (prev =? ch_star), (pass <=? 0), (is_blank (to_char b)), (to_char b =? ch_nl);
    cbn in Hopen |- *; done.
Qed.

Lemma skip_loop_in_block body : ∀ more consumed prev pass,
  Forall (λ b, to_char b ≠ EOF) body →
  star_slash prev body = false →
  skip_loop (body ++ more) consumed prev 2 pass
  = skip_loop more (reverse body ++ consumed) (last_char prev body) 2
      (pass - Z.of_nat (length body)).
Proof.
  induction body as [|b body IH]; intros more consumed prev pass Hbody Hss.
  - cbn. by rewrite Z.sub_0_r.
  - apply Forall_cons in Hbody as [He Hbody].
    cbn [star_slash] in Hss. apply orb_false_iff in Hss as [Hopen Hss].
    cbn [app]. rewrite skip_loop_block_step; [|done|by rewrite Hopen].
    rewrite IH by done.
    rewrite reverse_cons, <- app_assoc. cbn [app length].
    change (last_char prev (b :: body)) with (last_char (to_char b) body).
    f_equal. lia.
Qed.

Lemma skip_loop_close_block more consumed pass :
  pass <= 0 →
  skip_loop (ch_slash :: more) consumed ch_star 2 pass
  = skip_loop more (ch_slash :: consumed) ch_slash 0 (pass - 1).
Proof.
  intros Hp. cbn [skip_loop]. change (to_char ch_slash) with ch_slash.
  destruct (Z.leb_spec pass 0); [done | lia].
Qed.

Lemma star_slash_snoc body : ∀ prev b,
  star_slash prev (body ++ [b])
  = star_slash prev body
    || ((last_char prev body =? ch_star) && (to_char b =? ch_slash)).
Proof.
  induction body as [|c body IH]; intros prev b; cbn [app star_slash last_char foldl].
  - by rewrite orb_false_r.
  - rewrite IH. unfold last_char. by rewrite orb_assoc.
Qed.

Lemma last_char_snoc prev body b : last_char prev (body ++ [b]) = to_char b.
Proof. unfold last_char. by rewrite foldl_app. Qed.

(** A comment that is opened, with what the loop does up to the end of
    the comment text: the opening star, the text and the closing star are
    passed over. *)
Lemma skip_loop_block_text body more consumed pass :
  Forall (λ b, to_char b ≠ EOF) body →
  has_star_slash body = false →
  skip_loop (ch_star :: body ++ ch_star :: more) consumed ch_slash 0 pass
  = skip_loop more (ch_star :: reverse body ++ ch_star :: consumed) ch_star 2
      (- Z.of_nat (length body)).
Proof.
  intros Hbody Hss. rewrite skip_loop_open_block.
  replace (body ++ ch_star :: more) with ((body ++ [ch_star]) ++ more)
    by (by rewrite <- app_assoc).
  assert (Forall (λ b, to_char b ≠ EOF) (body ++ [ch_star])) as Hall.
  { apply Forall_app. split; [done|]. by repeat constructor. }
  assert (has_star_slash (body ++ [ch_star]) = false) as Hss'.
  { unfold has_star_slash in *. rewrite star_slash_snoc, Hss.
    change (to_char ch_star =? ch_slash) with false. by rewrite andb_false_r. }
  destruct (body ++ [ch_star]) as [|y Y] eqn:EY; [by destruct body|].
  apply Forall_cons in Hall as [Hy HY].
  cbn [app]. rewrite skip_loop_block_step; [|done|by rewrite andb_false_r].
  unfold has_star_slash in Hss'. cbn [star_slash] in Hss'.
  change (0 =? ch_star) with false in Hss'. cbn [andb orb] in Hss'.
  rewrite skip_loop_in_block by done.
  assert (last_char (to_char y) Y = ch_star) as ->.
  { change (last_char (to_char y) Y) with (last_char 0 (y :: Y)).
    rewrite <- EY. apply last_char_snoc. }
  assert (reverse Y ++ y :: ch_star :: consumed
          = ch_star :: reverse body ++ ch_star :: consumed) as ->.
  { replace (reverse Y ++ y :: ch_star :: consumed)
      with (reverse (y :: Y) ++ ch_star :: consumed)
      by (by rewrite reverse_cons, <- app_assoc).
    by rewrite <- EY, reverse_app. }
  f_equal.
  assert (length (y :: Y) = S (length body)) as Hlen
    by (by rewrite <- EY, length_app, Nat.add_1_r).
  cbn [length] in Hlen. lia.
Qed.

(** What [lex] reads does not depend on what [skip_to_token] has passed
    over: it is what [lex] reads from where [skip_to_token] stops. *)
Lemma lex_after_skip TOKEN_LENGTH l t r l1 r1 :
  unlexed_count l <= 0 →
  skip_to_token l = (r, l1) →
  skip_to_token l1 = (r1, l1) →
  lex TOKEN_LENGTH l t = lex TOKEN_LENGTH l1 t.
Proof.
  intros Hc Hskip Hskip1.
  pose proof (skip_to_token_pushback l) as [_ Hn]. rewrite Hskip in Hn. cbn in Hn.
  unfold lex. rewrite Hn.
  destruct (Z.gtb_spec (unlexed_count l) 0); [lia|].
  by rewrite Hskip, Hskip1.
Qed.

(** Blanks before a token change nothing but the cursor: [lex] returns
    what it returns on the stream without them. *)
Theorem lex_ignores_leading_blanks (TOKEN_LENGTH : Z) (l : Lexer) (t : Token)
    (ws : list Z) (b : Z) (rest : list Z) :
  unlexed_count l <= 0 →
  Forall (λ c, is_blank c = true) ws →
  pending (fp l) = ws ++ b :: rest →
  to_char b ≠ EOF → is_blank (to_char b) = false → to_char b ≠ ch_slash →
  lex TOKEN_LENGTH l t
  = lex TOKEN_LENGTH (set_fp l (mkFILE (reverse ws ++ consumed (fp l)) (b :: rest))) t.
Proof.
  intros Hc Hws Hp He Hb Hs.
  eapply lex_after_skip; [done | by apply skip_blanks_stop |].
  by apply (skip_to_token_immediate _ b rest).
Qed.



Lemma skip_block_comment_stop (l : Lexer) (ws body : list Z) (b : Z) (rest : list Z) :
  Forall (λ c, is_blank c = true) ws →
  Forall (λ b, to_char b ≠ EOF) body →
  has_star_slash body = false →
  pending (fp l) = ws ++ ch_slash :: ch_star :: body ++ ch_star :: ch_slash :: b :: rest →
  to_char b ≠ EOF → to_char b ≠ ch_star → to_char b ≠ ch_slash →
  skip_to_token l
  = (0, set_fp l
          (mkFILE (reverse (ws ++ ch_slash :: ch_star :: body ++ [ch_star; ch_slash])
                     ++ consumed (fp l)) (b :: rest))).
Proof.
  intros Hws Hbody Hss Hp He Hst Hsl.
  destruct (skip_to_token_slash l ws _ Hws Hp) as [pass ->].
  rewrite skip_loop_block_text by done.
  rewrite skip_loop_close_block by lia.
  rewrite skip_loop_after_slash by done. cbn [fst snd].
  do 2 f_equal.
  rewrite reverse_app, !reverse_cons, reverse_app, !reverse_cons, <- !app_assoc.
  done.
Qed.

(** A block comment, after blanks or none, whose text holds no star
    directly followed by a slash, is passed over with its two delimiters;
    of the character behind it the scanner only asks that it is neither a
    star nor a slash (nor a byte 0xFF), and it returns 0 before it. *)
Theorem skip_to_token_block_comment (l : Lexer) (ws body : list Z) (b : Z) (rest : list Z) :
  Forall (λ c, is_blank c = true) ws →
  Forall (λ b, to_char b ≠ EOF) body →
  has_star_slash body = false →
  pending (fp l) = ws ++ ch_slash :: ch_star :: body ++ ch_star :: ch_slash :: b :: rest →
  to_char b ≠ EOF → to_char b ≠ ch_star → to_char b ≠ ch_slash →
  skip_to_token l
  = (0, set_fp l
          (mkFILE (reverse (ws ++ ch_slash :: ch_star :: body ++ [ch_star; ch_slash])
                     ++ consumed (fp l)) (b :: rest))).
Proof. apply skip_block_comment_stop. Qed.

(** A block comment before a token changes nothing but the cursor: [lex]
    returns what it returns on the stream that starts behind the comment,
    when a token starts there. *)
Theorem lex_ignores_block_comment (TOKEN_LENGTH : Z) (l : Lexer) (t : Token)
    (ws body : list Z) (b : Z) (rest : list Z) :
  unlexed_count l <= 0 →
  Forall (λ c, is_blank c = true) ws →
  Forall (λ b, to_char b ≠ EOF) body →
  has_star_slash body = false →
  pending (fp l) = ws ++ ch_slash :: ch_star :: body ++ ch_star :: ch_slash :: b :: rest →
  to_char b ≠ EOF → to_char b ≠ ch_star → to_char b ≠ ch_slash →
  is_blank (to_char b) = false →
  lex TOKEN_LENGTH l t
  = lex TOKEN_LENGTH
      (set_fp l
         (mkFILE (reverse (ws ++ ch_slash :: ch_star :: body ++ [ch_star; ch_slash])
                    ++ consumed (fp l)) (b :: rest))) t.
Proof.
  intros Hc Hws Hbody Hss Hp He Hst Hsl Hb.
  eapply lex_after_skip; [done | by apply skip_block_comment_stop |].
  by apply (skip_to_token_immediate _ b rest).
Qed.

(** A blank directly behind a block comment is not skipped: the scanner
    takes the closing slash for a division sign, stops on the blank, and
    [lex] fails with its internal error. *)
Theorem lex_blank_after_block_comment (TOKEN_LENGTH : Z) (l : Lexer) (t : Token)
    (ws body : list Z) (b : Z) (rest : list Z) :
  unlexed_count l <= 0 →
  Forall (λ c, is_blank c = true) ws →
  Forall (λ b, to_char b ≠ EOF) body →
  has_star_slash body = false →
  pending (fp l) = ws ++ ch_slash :: ch_star :: body ++ ch_star :: ch_slash :: b :: rest →
  is_blank b = true →
  InternalInvariantViolation (lex TOKEN_LENGTH l t).
Proof.
  intros Hc Hws Hbody Hss Hp Hb.
  destruct (blank_char b Hb) as (Hchar & Hns & Hne).
  assert (b ≠ ch_star) as Hnst.
  { unfold is_blank in Hb. rewrite orb_true_iff, !Z.eqb_eq in Hb.
    unfold ch_space, ch_tab, ch_star in *. lia. }
  unfold lex. destruct (Z.gtb_spec (unlexed_count l) 0); [lia|].
  rewrite (skip_block_comment_stop l ws body b rest) by (done || by rewrite Hchar).
  unfold getc. cbn [fp set_fp pending].
  apply Z.eqb_neq in Hne. rewrite Hne.
  unfold is_blank in Hb. rewrite Hb. by split.
Qed.


(** ** The token reader *)

(** A character of the punctuation table is a token by itself: [lex]
    reads this one character and returns it with the kind that
    [ttype_one_char] has for it, which is never the sentinel. *)
Theorem lex_single_char_token (TOKEN_LENGTH : Z) (l : Lexer) (t : Token)
    (c : Z) (rest : list Z) :
  2 <= TOKEN_LENGTH →
  unlexed_count l <= 0 →
  pending (fp l) = c :: rest →
  in_string c single_char_tokens = true →
  lex TOKEN_LENGTH l t
  = mkOutcome 0 [] (set_fp l (mkFILE (c :: consumed (fp l)) rest))
      (mkToken (c :: replicate (Z.to_nat TOKEN_LENGTH - 1) 0) 1 (ttype_one_char c))
  ∧ token_text (tok (lex TOKEN_LENGTH l t)) = [c]
  ∧ is_punct_kind (ttype_one_char c).
Proof.
  intros Hlen Hc Hp Hin.
  destruct (ttype_one_char_table c) as [Hiff Hk].
  assert (c = 40 ∨ c = 41 ∨ c = 123 ∨ c = 125 ∨ c = 91 ∨ c = 93 ∨ c = 59) as Hrange.
  { revert Hin. unfold single_char_tokens. cbn [in_string].
    repeat match goal with
           | |- context [?a =? c] => destruct (Z.eqb_spec a c); [lia|]
           end.
    done. }
  assert (to_char c = c) as Hchar by (apply to_char_ascii; lia).
  assert (lex TOKEN_LENGTH l t
          = mkOutcome 0 [] (set_fp l (mkFILE (c :: consumed (fp l)) rest))
              (mkToken (c :: replicate (Z.to_nat TOKEN_LENGTH - 1) 0) 1 (ttype_one_char c)))
    as Hlex.
  { unfold lex. destruct (Z.gtb_spec (unlexed_count l) 0); [lia|].
    rewrite (skip_to_token_immediate l c rest); cycle 1.
    { done. }
    { rewrite Hchar. unfold EOF. lia. }
    { rewrite Hchar. unfold is_blank, ch_space, ch_tab.
      apply orb_false_iff. split; apply Z.eqb_neq; lia. }
    { rewrite Hchar. unfold ch_slash. lia. }
    unfold getc. rewrite Hp.
    assert ((c =? EOF) = false) as -> by (apply Z.eqb_neq; unfold EOF; lia).
    assert ((c =? ch_space) = false) as -> by (apply Z.eqb_neq; unfold ch_space; lia).
    assert ((c =? ch_tab) = false) as -> by (apply Z.eqb_neq; unfold ch_tab; lia).
    assert ((c =? ch_nl) = false) as -> by (apply Z.eqb_neq; unfold ch_nl; lia).
    cbn [orb]. rewrite Hchar, Hin. cbn [contents].
    destruct (Z.to_nat TOKEN_LENGTH) as [|n] eqn:Hn; [lia|].
    cbn [replicate Nat.sub]. rewrite Nat.sub_0_r. done. }
  split; [done|]. split.
  - rewrite Hlex. unfold token_text. cbn [tok contents].
    destruct (Z.to_nat TOKEN_LENGTH - 1)%nat eqn:E; [lia|].
    cbn [replicate cstr]. destruct (Z.eqb_spec c 0); [lia|]. done.
  - destruct Hk as [Hk|Hk]; [done|]. by apply Hiff in Hin.
Qed.

(** [lex] ends in one of three ways: success with nothing reported, the
    internal error, or the identifier that is too long. *)
Theorem lex_outcomes (TOKEN_LENGTH : Z) (l : Lexer) (t : Token) :
  (ret (lex TOKEN_LENGTH l t) = 0 ∧ err (lex TOKEN_LENGTH l t) = [])
  ∨ InternalInvariantViolation (lex TOKEN_LENGTH l t)
  ∨ IdentifierTooLong (lex TOKEN_LENGTH l t).
Proof.
  unfold lex, InternalInvariantViolation, IdentifierTooLong.
  destruct (unlexed_count l >? 0); [by left|].
  destruct (skip_to_token l) as [r l1].
  destruct (getc (fp l1)) as [init f].
  destruct (init =? EOF); [by left|].
  destruct ((init =? ch_space) || (init =? ch_tab)); [by right; left|].
  destruct (init =? ch_nl); [by left|].
  destruct (in_string _ _); [by left|].
  destruct (is_valid_numeric_or_id_char _); [|by left].
  destruct (id_loop _ _ _ _ _); [by left | by right; right].
Qed.




(** [unlex] never touches the stream, keeps the size of the array, and
    never overwrites a token that is waiting in the buffer. *)
Theorem unlex_keeps_waiting_tokens (TOKEN_PUTBACKS : Z) (l : Lexer) (t : Token) :
  fp (unlex TOKEN_PUTBACKS l t).2 = fp l
  ∧ length (unlexed (unlex TOKEN_PUTBACKS l t).2) = length (unlexed l)
  ∧ ∀ j, (j < Z.to_nat (unlexed_count l))%nat →
         unlexed (unlex TOKEN_PUTBACKS l t).2 !! j = unlexed l !! j.
Proof.
  unfold unlex. destruct (_ >=? _); cbn; [done|].
  split; [done|]. split; [apply length_insert|].
  intros j Hj. apply list_lookup_insert_ne. lia.
Qed.

Lemma cursor_at_add f k1 k2 : cursor_at (cursor_at f k1) k2 = cursor_at f (k1 + k2).
Proof.
  unfold cursor_at. cbn [pending consumed].
  by rewrite drop_drop, app_assoc, <- reverse_app, take_take_drop.
Qed.

Lemma getc_cursor f b rest : pending f = b :: rest → getc f = (b, cursor_at f 1).
Proof. intros Hp. unfold getc, cursor_at. by rewrite Hp. Qed.

(** Where the loop of [lex] and the [ungetc] behind it leave the cursor. *)
Lemma id_loop_cursor TOKEN_LENGTH p : ∀ c buf pos,
  Forall is_byte p →
  ∃ k, (k <= length p)%nat
    ∧ match id_loop TOKEN_LENGTH p c buf pos with
      | IdBreak ch f _ _ => ungetc ch f = cursor_at (mkFILE c p) k
      | IdTooLong f _ => f = cursor_at (mkFILE c p) k
      end.
Proof.
  induction p as [|b p IH]; intros c buf pos Hp; cbn [id_loop].
  - by exists 0%nat.
  - apply Forall_cons in Hp as [Hb Hp]. unfold is_byte in Hb.
    destruct (negb _).
    + exists 0%nat. split; [lia|]. unfold ungetc, cursor_at.
      destruct (Z.eqb_spec b EOF); [unfold EOF in *; lia|].
      cbn. by rewrite Z.mod_small.
    + destruct (_ >=? _).
      * exists 1%nat. split; [cbn; lia | done].
      * destruct (IH (b :: c) (<[Z.to_nat pos:=to_char b]> buf) (pos + 1) Hp) as (k & Hk & Hf).
        exists (S k). split; [cbn; lia|].
        change (cursor_at (mkFILE c (b :: p)) (S k))
          with (mkFILE (reverse (b :: take k p) ++ c) (drop k p)).
        rewrite reverse_cons, <- app_assoc. exact Hf.
Qed.

Lemma lex_cursor_moves (TOKEN_LENGTH : Z) (l : Lexer) (t : Token) :
  unlexed_count l <= 0 →
  Forall is_byte (pending (fp l)) →
  pending (fp l) ≠ [] →
  ∃ k, (1 <= k <= length (pending (fp l)))%nat
    ∧ fp (lx (lex TOKEN_LENGTH l t)) = cursor_at (fp l) k.
Proof.
  intros Hc Hbytes Hne. unfold lex.
  destruct (Z.gtb_spec (unlexed_count l) 0); [lia|].
  destruct (skip_to_token_result l) as (k1 & Hk1 & Hl1 & _).
  destruct (skip_to_token l) as [r l1]. cbn [snd] in Hl1. subst l1. cbn [fp set_fp].
  destruct (drop k1 (pending (fp l))) as [|b rest] eqn:Hd.
  - assert (getc (cursor_at (fp l) k1) = (EOF, cursor_at (fp l) k1)) as ->.
    { unfold getc. cbn [cursor_at pending]. by rewrite Hd. }
    cbn. exists k1. split; [|done].
    apply (f_equal length) in Hd. rewrite length_drop in Hd. cbn in Hd.
    destruct (pending (fp l)); [done|]. cbn [length] in *. lia.
  - assert (length (pending (fp l)) = (k1 + S (length rest))%nat) as Hlen.
    { rewrite <- (take_drop k1 (pending (fp l))) at 1.
      rewrite length_app, length_take_le, Hd by lia. done. }
    rewrite (getc_cursor _ b rest) by done. rewrite cursor_at_add.
    destruct (b =? EOF); [exists (k1 + 1)%nat; split; [lia|done]|].
    destruct ((b =? ch_space) || (b =? ch_tab)); [exists (k1 + 1)%nat; split; [lia|done]|].
    destruct (b =? ch_nl); [exists (k1 + 1)%nat; split; [lia|done]|].
    destruct (in_string _ _); [exists (k1 + 1)%nat; split; [lia|done]|].
    destruct (is_valid_numeric_or_id_char _); [|exists (k1 + 1)%nat; split; [lia|done]].
    cbn [fp set_fp contents].
    assert (pending (cursor_at (fp l) (k1 + 1)) = rest) as Hrest.
    { cbn [cursor_at pending]. by rewrite <- drop_drop, Hd. }
    assert (Forall is_byte rest) as Hbr.
    { apply (Forall_drop _ k1) in Hbytes. rewrite Hd in Hbytes.
      by apply Forall_cons in Hbytes as [_ ?]. }
    match goal with
    | |- context [id_loop ?T ?p ?c ?buf ?pos] =>
        destruct (id_loop_cursor T p c buf pos) as (k2 & Hk2 & Hf);
          [by rewrite Hrest|];
        destruct (id_loop T p c buf pos)
    end; cbn [lx fp set_fp];
      (exists (k1 + 1 + k2)%nat; split; [rewrite Hrest in Hk2; lia|]);
      rewrite Hf, <- (cursor_at_add (fp l) (k1 + 1) k2); reflexivity.
Qed.

(** On a stream that is not at its end, a call of [lex] that reads from it
    moves the cursor forward by at least one byte, whether it succeeds or
    fails, and changes nothing else in the stream or in the pushback
    buffer: reading token after token comes to the end of the stream. *)
Theorem lex_progress (TOKEN_LENGTH : Z) (l : Lexer) (t : Token) :
  unlexed_count l <= 0 →
  Forall is_byte (pending (fp l)) →
  pending (fp l) ≠ [] →
  (∃ k, (1 <= k <= length (pending (fp l)))%nat
     ∧ fp (lx (lex TOKEN_LENGTH l t)) = cursor_at (fp l) k)
  ∧ unlexed (lx (lex TOKEN_LENGTH l t)) = unlexed l
  ∧ unlexed_count (lx (lex TOKEN_LENGTH l t)) = unlexed_count l.
Proof.
  intros Hc Hbytes Hne. split.
  - by apply lex_cursor_moves.
  - by apply lex_stream_pushback.
Qed.

Lemma valid_to_char_byte b :
  is_byte b → is_valid_numeric_or_id_char (to_char b) = true →
  is_valid_numeric_or_id_char b = true.
Proof.
  intros Hb Hv. pose proof (valid_char_range _ Hv) as Hr.
  assert (b = to_char b) as Hb' by (apply to_char_byte_eq; [done | lia | done]).
  by rewrite Hb'.
Qed.

(** Every stream of bytes starts with a run of identifier characters,
    which may be empty, that the end of the stream or another byte ends. *)
Lemma run_split p :
  Forall is_byte p →
  ∃ w rest, p = w ++ rest
    ∧ Forall (λ b, is_valid_numeric_or_id_char b = true) w
    ∧ terminated rest.
Proof.
  induction 1 as [|b p Hb Hp (w & rest & -> & Hw & Hterm)].
  - by exists [], [].
  - destruct (is_valid_numeric_or_id_char (to_char b)) eqn:Hv.
    + exists (b :: w), rest. split; [done|]. split; [|done].
      constructor; [by apply valid_to_char_byte | done].
    + by exists [], (b :: w ++ rest).
Qed.

Lemma lex_run_too_long TOKEN_LENGTH l w rest t :
  2 <= TOKEN_LENGTH →
  unlexed_count l <= 0 →
  pending (fp l) = w ++ rest →
  Forall (λ b, is_valid_numeric_or_id_char b = true) w →
  TOKEN_LENGTH - 1 < Z.of_nat (length w) →
  IdentifierTooLong (lex TOKEN_LENGTH l t).
Proof.
  intros Hlen Hc Hp Hw Hlong.
  destruct w as [|c w]; [cbn in Hlong; lia|].
  apply Forall_cons in Hw as [Hvc Hw].
  pose proof (valid_char_range c Hvc) as Hrange.
  pose proof (valid_char_to_char c Hvc) as Hchar.
  pose proof (valid_char_not_slash c Hvc) as Hns.
  unfold lex. destruct (Z.gtb_spec (unlexed_count l) 0); [lia|].
  rewrite (skip_to_token_immediate l c (w ++ rest)); [|done|rewrite Hchar..].
  2: { unfold EOF. lia. }
  2: { unfold is_blank, ch_space, ch_tab. apply orb_false_iff. split; apply Z.eqb_neq; lia. }
  2: { done. }
  unfold getc. rewrite Hp. cbn [app].
  assert ((c =? EOF) = false) as -> by (apply Z.eqb_neq; unfold EOF; lia).
  assert ((c =? ch_space) = false) as -> by (apply Z.eqb_neq; unfold ch_space; lia).
  assert ((c =? ch_tab) = false) as -> by (apply Z.eqb_neq; unfold ch_tab; lia).
  assert ((c =? ch_nl) = false) as -> by (apply Z.eqb_neq; unfold ch_nl; lia).
  cbn [orb]. rewrite Hchar, (valid_char_not_single c Hvc), Hvc.
  cbn [fp set_fp pending consumed contents].
  edestruct (id_loop_too_long TOKEN_LENGTH w rest) as (f & buf' & ->);
    [done | | | by cbn].
  - lia.
  - cbn [length] in Hlong. lia.
Qed.

(** A stream that starts with an identifier character: [lex] reads the
    longest run of identifier characters.  When the run fits, the token
    has the run as its text and its length, the kind the classifier gives
    it (a literal or an identifier), and the cursor stops behind the run;
    when it is longer than [MAX_TOKEN_LEN], [lex] fails. *)
Theorem lex_reads_longest_run (TOKEN_LENGTH : Z) (l : Lexer) (t : Token)
    (c : Z) (rest0 : list Z) :
  2 <= TOKEN_LENGTH →
  unlexed_count l <= 0 →
  pending (fp l) = c :: rest0 →
  Forall is_byte (c :: rest0) →
  is_valid_numeric_or_id_char c = true →
  ∃ w rest,
    pending (fp l) = w ++ rest
    ∧ w ≠ []
    ∧ Forall (λ b, is_valid_numeric_or_id_char b = true) w
    ∧ terminated rest
    ∧ ((Z.of_nat (length w) <= MAX_TOKEN_LEN TOKEN_LENGTH
        ∧ ret (lex TOKEN_LENGTH l t) = 0
        ∧ err (lex TOKEN_LENGTH l t) = []
        ∧ token_view (tok (lex TOKEN_LENGTH l t))
          = (w, Z.of_nat (length w), ttype_many_chars (Some w))
        ∧ is_word_kind (tok_type (tok (lex TOKEN_LENGTH l t)))
        ∧ fp (lx (lex TOKEN_LENGTH l t)) = mkFILE (reverse w ++ consumed (fp l)) rest)
       ∨ (MAX_TOKEN_LEN TOKEN_LENGTH < Z.of_nat (length w)
          ∧ IdentifierTooLong (lex TOKEN_LENGTH l t))).
Proof.
  intros Hlen Hc Hp Hbytes Hvc.
  destruct (run_split (c :: rest0) Hbytes) as (w & rest & Hsplit & Hw & Hterm).
  assert (w ≠ []) as Hne.
  { intros ->. cbn in Hsplit. subst rest. destruct Hterm as [Hinv _].
    rewrite (valid_char_to_char c Hvc) in Hinv. congruence. }
  exists w, rest. rewrite Hp. split; [done|]. split; [done|]. split; [done|].
  split; [done|]. rewrite Hsplit in Hp.
  unfold MAX_TOKEN_LEN.
  destruct (Z_le_gt_dec (Z.of_nat (length w)) (TOKEN_LENGTH - 1)) as [Hfit|Hlong].
  - left. split; [done|].
    rewrite (lex_word TOKEN_LENGTH l w rest) by done.
    cbn [ret err tok lx fp set_fp tok_type]. split; [done|]. split; [done|].
    split; [|split; [apply ttype_many_chars_word | done]].
    unfold token_view, token_text. cbn [contents tok_length tok_type].
    destruct (Z.to_nat TOKEN_LENGTH - length w)%nat eqn:E; [lia|].
    cbn [replicate]. by rewrite cstr_text.
  - right. split; [lia|]. by apply (lex_run_too_long TOKEN_LENGTH l w rest); [..|lia].
Qed.

(** A newline, after blanks or none, is a token: [lex] reads it and
    returns the newline token, whose text is "[newline]". *)
Theorem lex_newline_token (TOKEN_LENGTH : Z) (l : Lexer) (t : Token) (ws rest : list Z) :
  10 <= TOKEN_LENGTH →
  unlexed_count l <= 0 →
  Forall (λ c, is_blank c = true) ws →
  pending (fp l) = ws ++ ch_nl :: rest →
  lex TOKEN_LENGTH l t
  = mkOutcome 0 [] (set_fp l (mkFILE (ch_nl :: reverse ws ++ consumed (fp l)) rest))
      (newline_token TOKEN_LENGTH)
  ∧ token_view (newline_token TOKEN_LENGTH) = (c_str "[newline]", 9, TT_NEWLINE).
Proof.
  intros Hlen Hc Hws Hp. split; [|by apply newline_token_view].
  rewrite (lex_at_newline TOKEN_LENGTH l t 0
             (set_fp l (mkFILE (reverse ws ++ consumed (fp l)) (ch_nl :: rest))) rest);
    [done | done | | done].
  by apply skip_blanks_stop.
Qed.

(** Any other first character (an operator, a quote, a control character)
    is taken from the stream alone, and [lex] returns success with the
    length and the kind of the caller's token as they were. *)
Theorem lex_other_character (TOKEN_LENGTH : Z) (l : Lexer) (t : Token)
    (c : Z) (rest : list Z) :
  unlexed_count l <= 0 →
  pending (fp l) = c :: rest →
  0 <= c < 128 →
  is_blank c = false → c ≠ ch_slash → c ≠ ch_nl →
  in_string c single_char_tokens = false →
  is_valid_numeric_or_id_char c = false →
  lex TOKEN_LENGTH l t
  = mkOutcome 0 [] (set_fp l (mkFILE (c :: consumed (fp l)) rest))
      (mkToken (<[ 0%nat := c ]> (replicate (Z.to_nat TOKEN_LENGTH) 0))
         (tok_length t) (tok_type t)).
Proof.
  intros Hc Hp Hr Hb Hs Hn Hin Hv.
  pose proof (to_char_ascii c Hr) as Hchar.
  unfold lex. destruct (Z.gtb_spec (unlexed_count l) 0); [lia|].
  rewrite (skip_to_token_immediate l c rest);
    [ | done | rewrite Hchar; unfold EOF; lia | by rewrite Hchar | by rewrite Hchar ].
  unfold getc. rewrite Hp.
  assert ((c =? EOF) = false) as -> by (apply Z.eqb_neq; unfold EOF; lia).
  unfold is_blank in Hb. rewrite Hb.
  apply Z.eqb_neq in Hn. rewrite Hn, Hchar, Hin, Hv. done.
Qed.

(** Once [skip_to_token] has stopped before a character that is not a
    blank, calling it again changes nothing. *)
Theorem skip_to_token_idempotent (l l1 : Lexer) (b : Z) (rest : list Z) :
  skip_to_token l = (0, l1) →
  pending (fp l1) = b :: rest →
  is_blank (to_char b) = false →
  skip_to_token l1 = (0, l1).
Proof.
  intros Hskip Hp Hb.
  destruct (skip_to_token_result l) as (k & Hk & Hl1 & Hr).
  rewrite Hskip in Hl1, Hr. cbn [fst snd] in Hl1, Hr.
  destruct Hr as [(_ & b' & rest' & Hd & He & Hs) | [? _]]; [|done].
  assert (pending (fp l1) = b' :: rest') as Hp' by (by rewrite Hl1).
  rewrite Hp in Hp'. injection Hp' as -> ->.
  by apply (skip_to_token_immediate l1 b' rest').
Qed.

(** ** The further properties at given inputs *)

Lemma ttype_many_chars_period_or_quote_witness :
  ttype_many_chars (Some (c_str "1.f")) = TT_LITERAL.
Proof.
  apply ttype_many_chars_period_or_quote. left.
  change (c_str "1.f") with [49; ch_dot; 102].
  apply list_elem_of_further, list_elem_of_here.
Defined.

Lemma ttype_from_string_punct_witness :
  ttype_from_string (c_str ";") = TT_SEMI ∧ is_punct_kind TT_SEMI.
Proof. exact (ttype_from_string_punct 59 eq_refl). Defined.

Lemma ttype_from_string_fallback_witness :
  ttype_from_string (c_str "1") = ttype_many_chars (Some (c_str "1")).
Proof.
  apply ttype_from_string_fallback. intros c Hc.
  injection Hc as <-. reflexivity.
Defined.

Lemma skip_to_token_skips_blanks_witness :
  skip_to_token (mkLexer (mkFILE [] (c_str "  x")) [] 0)
  = (0, mkLexer (mkFILE (c_str "  ") (c_str "x")) [] 0).
Proof.
  refine (skip_to_token_skips_blanks (mkLexer (mkFILE [] (c_str "  x")) [] 0)
            (c_str "  ") 120 [] _ eq_refl _ _ _); at_input.
Defined.


Lemma lex_ignores_leading_blanks_witness :
  lex 16 (mkLexer (mkFILE [] (c_str "  x;")) [] 0) (mkToken [] 0 TT_NO_TOKEN)
  = lex 16 (mkLexer (mkFILE (c_str "  ") (c_str "x;")) [] 0) (mkToken [] 0 TT_NO_TOKEN).
Proof.
  refine (lex_ignores_leading_blanks 16 (mkLexer (mkFILE [] (c_str "  x;")) [] 0)
            (mkToken [] 0 TT_NO_TOKEN) (c_str "  ") 120 (c_str ";") _ _ eq_refl _ _ _);
    at_input.
Defined.



Lemma skip_to_token_block_comment_witness :
  skip_to_token (mkLexer (mkFILE [] (c_str " /*/ a*b **/x")) [] 0)
  = (0, mkLexer (mkFILE (reverse (c_str " /*/ a*b **/")) (c_str "x")) [] 0).
Proof.
  refine (skip_to_token_block_comment (mkLexer (mkFILE [] (c_str " /*/ a*b **/x")) [] 0)
            (c_str " ") (c_str "/ a*b *") 120 [] _ _ _ eq_refl _ _ _); at_input.
Defined.

Lemma lex_ignores_block_comment_witness :
  lex 16 (mkLexer (mkFILE [] (c_str "/* x */y")) [] 0) (mkToken [] 0 TT_NO_TOKEN)
  = lex 16 (mkLexer (mkFILE (reverse (c_str "/* x */")) (c_str "y")) [] 0)
      (mkToken [] 0 TT_NO_TOKEN).
Proof.
  refine (lex_ignores_block_comment 16 (mkLexer (mkFILE [] (c_str "/* x */y")) [] 0)
            (mkToken [] 0 TT_NO_TOKEN) [] (c_str " x ") 121 [] _ _ _ _ eq_refl _ _ _ _);
    at_input.
Defined.

Lemma lex_blank_after_block_comment_witness :
  InternalInvariantViolation
    (lex 16 (mkLexer (mkFILE [] (c_str "/* x */ y")) [] 0) (mkToken [] 0 TT_NO_TOKEN)).
Proof.
  refine (lex_blank_after_block_comment 16 (mkLexer (mkFILE [] (c_str "/* x */ y")) [] 0)
            (mkToken [] 0 TT_NO_TOKEN) [] (c_str " x ") 32 (c_str "y") _ _ _ _ eq_refl _);
    at_input.
Defined.


Lemma lex_single_char_token_witness :
  lex 16 (mkLexer (mkFILE [] (c_str "{x}")) [] 0) (mkToken [] 0 TT_NO_TOKEN)
  = mkOutcome 0 [] (mkLexer (mkFILE (c_str "{") (c_str "x}")) [] 0)
      (mkToken (123 :: replicate 15 0) 1 TT_OBRACE).
Proof.
  refine (proj1 (lex_single_char_token 16 (mkLexer (mkFILE [] (c_str "{x}")) [] 0)
                   (mkToken [] 0 TT_NO_TOKEN) 123 (c_str "x}") _ _ eq_refl eq_refl));
    at_input.
Defined.


Lemma lex_progress_witness :
  ∃ k, (1 <= k <= 4)%nat
    ∧ fp (lx (lex 16 (mkLexer (mkFILE [] (c_str " ab+")) [] 0) (mkToken [] 0 TT_NO_TOKEN)))
      = cursor_at (mkFILE [] (c_str " ab+")) k.
Proof.
  refine (proj1 (lex_progress 16 (mkLexer (mkFILE [] (c_str " ab+")) [] 0)
                   (mkToken [] 0 TT_NO_TOKEN) _ _ _)); at_input.
Defined.

Lemma lex_reads_longest_run_witness :
  ∃ w rest,
    c_str "x1+y" = w ++ rest
    ∧ w ≠ []
    ∧ Forall (λ b, is_valid_numeric_or_id_char b = true) w
    ∧ terminated rest
    ∧ ((Z.of_nat (length w) <= MAX_TOKEN_LEN 16
        ∧ ret (lex 16 (mkLexer (mkFILE [] (c_str "x1+y")) [] 0) (mkToken [] 0 TT_NO_TOKEN)) = 0
        ∧ err (lex 16 (mkLexer (mkFILE [] (c_str "x1+y")) [] 0) (mkToken [] 0 TT_NO_TOKEN)) = []
        ∧ token_view
            (tok (lex 16 (mkLexer (mkFILE [] (c_str "x1+y")) [] 0) (mkToken [] 0 TT_NO_TOKEN)))
          = (w, Z.of_nat (length w), ttype_many_chars (Some w))
        ∧ is_word_kind
            (tok_type
               (tok (lex 16 (mkLexer (mkFILE [] (c_str "x1+y")) [] 0)
                       (mkToken [] 0 TT_NO_TOKEN))))
        ∧ fp (lx (lex 16 (mkLexer (mkFILE [] (c_str "x1+y")) [] 0) (mkToken [] 0 TT_NO_TOKEN)))
          = mkFILE (reverse w ++ []) rest)
       ∨ (MAX_TOKEN_LEN 16 < Z.of_nat (length w)
          ∧ IdentifierTooLong
              (lex 16 (mkLexer (mkFILE [] (c_str "x1+y")) [] 0) (mkToken [] 0 TT_NO_TOKEN)))).
Proof.
  refine (lex_reads_longest_run 16 (mkLexer (mkFILE [] (c_str "x1+y")) [] 0)
            (mkToken [] 0 TT_NO_TOKEN) 120 (c_str "1+y") _ _ eq_refl _ eq_refl); at_input.
Defined.

Lemma lex_newline_token_witness :
  lex 16 (mkLexer (mkFILE [] (ch_space :: ch_nl :: c_str "x")) [] 0)
    (mkToken [] 0 TT_NO_TOKEN)
  = mkOutcome 0 [] (mkLexer (mkFILE [ch_nl; ch_space] (c_str "x")) [] 0)
      (newline_token 16).
Proof.
  refine (proj1 (lex_newline_token 16
                   (mkLexer (mkFILE [] (ch_space :: ch_nl :: c_str "x")) [] 0)
                   (mkToken [] 0 TT_NO_TOKEN) [ch_space] (c_str "x") _ _ _ eq_refl));
    at_input.
Defined.

Lemma lex_other_character_witness :
  lex 16 (mkLexer (mkFILE [] (c_str "+1")) [] 0) (mkToken [] 7 TT_SEMI)
  = mkOutcome 0 [] (mkLexer (mkFILE (c_str "+") (c_str "1")) [] 0)
      (mkToken (43 :: replicate 15 0) 7 TT_SEMI).
Proof.
  refine (lex_other_character 16 (mkLexer (mkFILE [] (c_str "+1")) [] 0)
            (mkToken [] 7 TT_SEMI) 43 (c_str "1") _ eq_refl _ eq_refl _ _ eq_refl eq_refl);
    first [at_input | split; by vm_compute].
Defined.

Lemma skip_to_token_idempotent_witness :
  skip_to_token (mkLexer (mkFILE (c_str "  ") (c_str "x")) [] 0)
  = (0, mkLexer (mkFILE (c_str "  ") (c_str "x")) [] 0).
Proof.
  refine (skip_to_token_idempotent (mkLexer (mkFILE [] (c_str "  x")) [] 0)
            (mkLexer (mkFILE (c_str "  ") (c_str "x")) [] 0) 120 [] eq_refl eq_refl eq_refl).
Defined.

Lemma lex_word_of_max_length_witness :
  ret (lex 4 (mkLexer (mkFILE [] (c_str "abc;")) [] 0) (mkToken [] 0 TT_NO_TOKEN)) = 0
  ∧ token_text (tok (lex 4 (mkLexer (mkFILE [] (c_str "abc;")) [] 0)
                       (mkToken [] 0 TT_NO_TOKEN))) = c_str "abc".
Proof.
  refine (lex_word_of_max_length 4 (mkLexer (mkFILE [] (c_str "abc;")) [] 0)
            (c_str "abc") (c_str ";") (mkToken [] 0 TT_NO_TOKEN) _ eq_refl _ _ _ eq_refl);
    first [at_input | split; by vm_compute].
Defined.
